(** * go-bb: the benchmark rewriter of [main.go]

    A shallow embedding of the tool that turns one [Benchmark*] function into
    a free-standing routine: the syntax trees of [go/ast] the tool walks, the
    traversal of [astutil.Apply] with the two callbacks of
    [removeReferencesToIdentifier], the declaration edit of
    [rewriteBenchFuncInPlace], the selection of [findBenchmarkFuncs], the
    renaming of [renameTestFiles] and the sequence of steps of [main]. *)

From Stdlib Require Import List ZArith Bool String Ascii DecimalString Lia.
Import ListNotations.
Local Open Scope string_scope.
Local Open Scope list_scope.
Local Open Scope Z_scope.

Set Implicit Arguments.

Scheme All for list.
Scheme All for option.

(** ** Syntax trees ([go/ast])

    The node kinds of expressions and statements that occur in function
    bodies, with their fields in the order of the library.  Positions are
    left out.  Function literals, declaration statements, type switches,
    [select] statements and the type expressions other than array and map
    types are not covered.  A pointer to an [ast.Object] is an optional
    object number: two identifiers denote the same declared entity when
    their numbers agree, and an unresolved identifier has none. *)

Module Ast.

Inductive Token : Type :=
  | ADD | SUB | MUL | QUO | REM
  | AND | OR | XOR | SHL | SHR
  | LAND | LOR | ARROW | NOT
  | EQL | LSS | GTR | NEQ | LEQ | GEQ
  | ASSIGN | DEFINE | ADD_ASSIGN | SUB_ASSIGN | MUL_ASSIGN | QUO_ASSIGN
  | INC | DEC
  | BREAK | CONTINUE | GOTO | FALLTHROUGH
  | INT | FLOAT | CHAR | STRING.

Definition Token_eqb (a b : Token) : bool :=
  match a, b with
  | ADD, ADD | SUB, SUB | MUL, MUL | QUO, QUO | REM, REM
  | AND, AND | OR, OR | XOR, XOR | SHL, SHL | SHR, SHR
  | LAND, LAND | LOR, LOR | ARROW, ARROW | NOT, NOT
  | EQL, EQL | LSS, LSS | GTR, GTR | NEQ, NEQ | LEQ, LEQ | GEQ, GEQ
  | ASSIGN, ASSIGN | DEFINE, DEFINE | ADD_ASSIGN, ADD_ASSIGN
  | SUB_ASSIGN, SUB_ASSIGN | MUL_ASSIGN, MUL_ASSIGN | QUO_ASSIGN, QUO_ASSIGN
  | INC, INC | DEC, DEC
  | BREAK, BREAK | CONTINUE, CONTINUE | GOTO, GOTO | FALLTHROUGH, FALLTHROUGH
  | INT, INT | FLOAT, FLOAT | CHAR, CHAR | STRING, STRING => true
  | _, _ => false
  end.

(** [*ast.Object], by number; [None] is the nil pointer. *)
Definition Object := option nat.

Definition Object_eqb (a b : Object) : bool :=
  match a, b with
  | None, None => true
  | Some x, Some y => Nat.eqb x y
  | _, _ => false
  end.

(** [ast.Ident] *)
Record Ident : Type := mkIdent { Name : string; Obj : Object }.

Inductive Expr : Type :=
  | IdentExpr (id : Ident)
  | BasicLit (Kind : Token) (Value : string)
  | CompositeLit (Type_ : option Expr) (Elts : list Expr)
  | ParenExpr (X : Expr)
  | SelectorExpr (X : Expr) (Sel : Ident)
  | IndexExpr (X : Expr) (Index : Expr)
  | SliceExpr (X : Expr) (Low High Max : option Expr)
  | TypeAssertExpr (X : Expr) (Type_ : option Expr)
  | CallExpr (Fun : Expr) (Args : list Expr)
  | StarExpr (X : Expr)
  | UnaryExpr (Op : Token) (X : Expr)
  | BinaryExpr (X : Expr) (Op : Token) (Y : Expr)
  | KeyValueExpr (Key : Expr) (Value : Expr)
  | ArrayType (Len : option Expr) (Elt : Expr)
  | MapType (Key : Expr) (Value : Expr).

(** A field of type [*ast.BlockStmt] is the list of the block: the block
    node around it is restored where the traversal visits it. *)
Inductive Stmt : Type :=
  | EmptyStmt
  | LabeledStmt (Label : Ident) (Stmt_ : Stmt)
  | ExprStmt (X : Expr)
  | SendStmt (Chan : Expr) (Value : Expr)
  | IncDecStmt (X : Expr) (Tok : Token)
  | AssignStmt (Lhs : list Expr) (Tok : Token) (Rhs : list Expr)
  | GoStmt (Call : Expr)
  | DeferStmt (Call : Expr)
  | ReturnStmt (Results : list Expr)
  | BranchStmt (Tok : Token) (Label : option Ident)
  | BlockStmt (List_ : list Stmt)
  | IfStmt (Init : option Stmt) (Cond : Expr) (Body : list Stmt)
           (Else : option Stmt)
  | CaseClause (List_ : list Expr) (Body : list Stmt)
  | SwitchStmt (Init : option Stmt) (Tag : option Expr) (Body : list Stmt)
  | ForStmt (Init : option Stmt) (Cond : option Expr) (Post : option Stmt)
            (Body : list Stmt)
  | RangeStmt (Key Value : option Expr) (Tok : Token) (X : Expr)
              (Body : list Stmt).

(** [ast.Node]: what a cursor can stand on.  [NNil] is the nil node of an
    absent optional child, which the traversal visits like any other. *)
Inductive Node : Type :=
  | NNil
  | NExpr (e : Expr)
  | NStmt (s : Stmt).

End Ast.
Export Ast.

(** ** The traversal ([astutil.Apply])

    [Apply root pre post] walks the tree depth first.  At every node it calls
    [pre] with a cursor; when [pre] returns false the node's children and its
    [post] call are skipped; otherwise the children are walked in the order of
    the node's fields and [post] is called.  The callbacks of this program use
    the cursor for [c.Node()], [c.Index()], [c.Replace(v.Body)] and
    [c.Delete()].  The trees are updated in place; here a walk returns the
    updated node, and the variables the callbacks close over are a state [S]
    passed along.  The library is not part of the repository: the walk
    follows its [rewrite.go]. *)

Module Astutil.

(** What a cursor shows: [c.Node()] and [c.Index()], which is [-1] unless the
    node is an element of a slice field of its parent. *)
Record Cursor : Type := mkCursor { Node_ : Node; Index : Z }.

(** What [pre] did: returned false; returned true; or called
    [c.Replace(v.Body)] and returned true. *)
Inductive PreAction : Type :=
  | Prune
  | Walk
  | ReplaceWithBody.

(** [c.Replace(v.Body)] stores in the parent's slot a pointer to the body
    block of the [for] statement under the cursor.  The walk then goes on in
    that statement, so what the slot shows in the end is the block as the
    walk left it. *)
Definition body_block (s : Stmt) : Stmt :=
  match s with
  | ForStmt _ _ _ body => BlockStmt body
  | _ => s
  end.

Section Apply.

Variable S : Type.
(** [pre] and [post]; the boolean of [post] tells that it called
    [c.Delete()].  ([post] returns true in this program, so the abort of
    [Apply] is not taken.) *)
Variable pre : Cursor -> S -> PreAction * S.
Variable post : Cursor -> S -> bool * S.

(** [a.apply] on a node without children, off any slice: the nil node of an
    absent child, or the identifier of a [Sel] or [Label] field. *)
Definition visit_leaf (n : Node) (st : S) : S :=
  let '(a, st) := pre (mkCursor n (-1)) st in
  match a with
  | Prune => st
  | _ => snd (post (mkCursor n (-1)) st)
  end.

(** [a.applyList]: the elements in turn; [c.Delete()] takes the element out
    and steps the iterator back, so the next element is met at the same
    index. *)
Definition applyList (A : Type) (f : Z -> A -> S -> option A * S)
  : Z -> list A -> S -> list A * S :=
  fix go (idx : Z) (l : list A) (st : S) {struct l} : list A * S :=
    match l with
    | [] => ([], st)
    | x :: r =>
        let '(ox, st) := f idx x st in
        match ox with
        | Some x' => let '(r', st) := go (idx + 1) r st in (x' :: r', st)
        | None => go idx r st
        end
    end.

(** [a.apply(n, name, nil, child)] for a field that holds one node.
    [c.Delete()] panics off a slice; [post] of this program calls it under
    [c.Index() >= 0] only, so the node stays. *)
Definition single (A : Type) (f : Z -> A -> S -> option A * S)
    (x : A) (st : S) : A * S :=
  let '(ox, st) := f (-1) x st in
  (match ox with Some x' => x' | None => x end, st).

(** The same for a field that may be nil. *)
Definition optional (A : Type) (f : Z -> A -> S -> option A * S)
    (o : option A) (st : S) : option A * S :=
  match o with
  | None => (None, visit_leaf NNil st)
  | Some x => let '(x', st) := single f x st in (Some x', st)
  end.

(** The same for a field of type [*ast.BlockStmt]. *)
Definition block (f : Z -> Stmt -> S -> option Stmt * S)
    (body : list Stmt) (st : S) : list Stmt * S :=
  let '(a, st) := pre (mkCursor (NStmt (BlockStmt body)) (-1)) st in
  match a with
  | Prune => (body, st)
  | _ =>
      let '(body', st) := applyList f 0 body st in
      let '(_, st) := post (mkCursor (NStmt (BlockStmt body')) (-1)) st in
      (body', st)
  end.

Definition ident_leaf (i : Ident) (st : S) : S :=
  visit_leaf (NExpr (IdentExpr i)) st.

Fixpoint apply_expr (idx : Z) (e : Expr) (st : S) {struct e}
  : option Expr * S :=
  let '(a, st) := pre (mkCursor (NExpr e) idx) st in
  match a with
  | Prune => (Some e, st)
  | _ =>
      let '(e', st) :=
        match e with
        | IdentExpr _ | BasicLit _ _ => (e, st)
        | CompositeLit t elts =>
            let '(t', st) := optional apply_expr t st in
            let '(elts', st) := applyList apply_expr 0 elts st in
            (CompositeLit t' elts', st)
        | ParenExpr x =>
            let '(x', st) := single apply_expr x st in (ParenExpr x', st)
        | SelectorExpr x sel =>
            let '(x', st) := single apply_expr x st in
            let st := ident_leaf sel st in
            (SelectorExpr x' sel, st)
        | IndexExpr x i =>
            let '(x', st) := single apply_expr x st in
            let '(i', st) := single apply_expr i st in
            (IndexExpr x' i', st)
        | SliceExpr x lo hi mx =>
            let '(x', st) := single apply_expr x st in
            let '(lo', st) := optional apply_expr lo st in
            let '(hi', st) := optional apply_expr hi st in
            let '(mx', st) := optional apply_expr mx st in
            (SliceExpr x' lo' hi' mx', st)
        | TypeAssertExpr x t =>
            let '(x', st) := single apply_expr x st in
            let '(t', st) := optional apply_expr t st in
            (TypeAssertExpr x' t', st)
        | CallExpr f args =>
            let '(f', st) := single apply_expr f st in
            let '(args', st) := applyList apply_expr 0 args st in
            (CallExpr f' args', st)
        | StarExpr x =>
            let '(x', st) := single apply_expr x st in (StarExpr x', st)
        | UnaryExpr op x =>
            let '(x', st) := single apply_expr x st in (UnaryExpr op x', st)
        | BinaryExpr x op y =>
            let '(x', st) := single apply_expr x st in
            let '(y', st) := single apply_expr y st in
            (BinaryExpr x' op y', st)
        | KeyValueExpr k v =>
            let '(k', st) := single apply_expr k st in
            let '(v', st) := single apply_expr v st in
            (KeyValueExpr k' v', st)
        | ArrayType len elt =>
            let '(len', st) := optional apply_expr len st in
            let '(elt', st) := single apply_expr elt st in
            (ArrayType len' elt', st)
        | MapType k v =>
            let '(k', st) := single apply_expr k st in
            let '(v', st) := single apply_expr v st in
            (MapType k' v', st)
        end in
      let '(del, st) := post (mkCursor (NExpr e') idx) st in
      if del then (None, st) else (Some e', st)
  end.

Fixpoint apply_stmt (idx : Z) (s : Stmt) (st : S) {struct s}
  : option Stmt * S :=
  let '(a, st) := pre (mkCursor (NStmt s) idx) st in
  match a with
  | Prune => (Some s, st)
  | _ =>
      let '(s', st) :=
        match s with
        | EmptyStmt => (s, st)
        | LabeledStmt l b =>
            let st := ident_leaf l st in
            let '(b', st) := single apply_stmt b st in
            (LabeledStmt l b', st)
        | ExprStmt x =>
            let '(x', st) := single apply_expr x st in (ExprStmt x', st)
        | SendStmt c v =>
            let '(c', st) := single apply_expr c st in
            let '(v', st) := single apply_expr v st in
            (SendStmt c' v', st)
        | IncDecStmt x tok =>
            let '(x', st) := single apply_expr x st in (IncDecStmt x' tok, st)
        | AssignStmt lhs tok rhs =>
            let '(lhs', st) := applyList apply_expr 0 lhs st in
            let '(rhs', st) := applyList apply_expr 0 rhs st in
            (AssignStmt lhs' tok rhs', st)
        | GoStmt c =>
            let '(c', st) := single apply_expr c st in (GoStmt c', st)
        | DeferStmt c =>
            let '(c', st) := single apply_expr c st in (DeferStmt c', st)
        | ReturnStmt rs =>
            let '(rs', st) := applyList apply_expr 0 rs st in
            (ReturnStmt rs', st)
        | BranchStmt tok l =>
            let st := match l with
                      | Some i => ident_leaf i st
                      | None => visit_leaf NNil st
                      end in
            (s, st)
        | BlockStmt l =>
            let '(l', st) := applyList apply_stmt 0 l st in (BlockStmt l', st)
        | IfStmt init cond body els =>
            let '(init', st) := optional apply_stmt init st in
            let '(cond', st) := single apply_expr cond st in
            let '(body', st) := block apply_stmt body st in
            let '(els', st) := optional apply_stmt els st in
            (IfStmt init' cond' body' els', st)
        | CaseClause l body =>
            let '(l', st) := applyList apply_expr 0 l st in
            let '(body', st) := applyList apply_stmt 0 body st in
            (CaseClause l' body', st)
        | SwitchStmt init tag body =>
            let '(init', st) := optional apply_stmt init st in
            let '(tag', st) := optional apply_expr tag st in
            let '(body', st) := block apply_stmt body st in
            (SwitchStmt init' tag' body', st)
        | ForStmt init cond post_ body =>
            let '(init', st) := optional apply_stmt init st in
            let '(cond', st) := optional apply_expr cond st in
            let '(post', st) := optional apply_stmt post_ st in
            let '(body', st) := block apply_stmt body st in
            (ForStmt init' cond' post' body', st)
        | RangeStmt k v tok x body =>
            let '(k', st) := optional apply_expr k st in
            let '(v', st) := optional apply_expr v st in
            let '(x', st) := single apply_expr x st in
            let '(body', st) := block apply_stmt body st in
            (RangeStmt k' v' tok x' body', st)
        end in
      let cur := match a with ReplaceWithBody => body_block s' | _ => s' end in
      let '(del, st) := post (mkCursor (NStmt s') idx) st in
      if del then (None, st) else (Some cur, st)
  end.

(** [Apply(root, pre, post)]: the root is held by a parent of the
    traversal's own, off any slice. *)
Definition Apply (root : Stmt) (st : S) : Stmt * S :=
  single apply_stmt root st.

End Apply.

End Astutil.
Export Astutil.

(** ** The reference transformer ([removeReferencesToIdentifier]) *)

Module Transformer.

(** The two variables the callbacks close over. *)
Record State : Type := mkState { depth : Z; deleteMe : bool }.

Definition initState : State := mkState 0 false.

Definition incDepth (st : State) : State :=
  mkState (depth st + 1) (deleteMe st).

(** [ident.Obj == id.Obj] *)
Definition sameObj (id ident : Ident) : bool :=
  Object_eqb (Obj ident) (Obj id).

(** The first callback.  A call whose function is a selector on the
    identifier raises [deleteMe] and is not entered.  A [for] statement whose
    condition is [_ < id._] is replaced by its body; [break] leaves the
    [switch] only, so the callback goes on to [depth++] and returns true. *)
Definition pre (id : Ident) (c : Cursor) (st : State) : PreAction * State :=
  match Node_ c with
  | NExpr (CallExpr f _) =>
      match f with
      | SelectorExpr expr _ =>
          match expr with
          | IdentExpr ident =>
              if sameObj id ident
              then (Prune, mkState (depth st) true)
              else (Walk, incDepth st)
          | _ => (Walk, incDepth st)
          end
      | _ => (Walk, incDepth st)
      end
  | NStmt (ForStmt _ cond _ _) =>
      match cond with
      | Some (BinaryExpr _ op y) =>
          if Token_eqb op LSS then
            match y with
            | SelectorExpr expr _ =>
                match expr with
                | IdentExpr ident =>
                    if sameObj id ident
                    then (ReplaceWithBody, incDepth st)
                    else (Walk, incDepth st)
                | _ => (Walk, incDepth st)
                end
            | _ => (Walk, incDepth st)
            end
          else (Walk, incDepth st)
      | _ => (Walk, incDepth st)
      end
  | _ => (Walk, incDepth st)
  end.

(** The second callback: [depth--], and under [deleteMe && c.Index() >= 0]
    the node is deleted and the flag cleared. *)
Definition post (c : Cursor) (st : State) : bool * State :=
  let d := depth st - 1 in
  if deleteMe st && (0 <=? Index c)
  then (true, mkState d false)
  else (false, mkState d (deleteMe st)).

Definition removeReferencesToIdentifier (id : Ident) (root : Stmt) : Stmt :=
  fst (Apply (pre id) post root initState).

(** The state the traversal ends in. *)
Definition finalState (id : Ident) (root : Stmt) : State :=
  snd (Apply (pre id) post root initState).

End Transformer.
Export Transformer.

(** ** Occurrences of an object *)

Section Mentions.

Variable id : Ident.

Definition opt_mentions (A : Type) (f : A -> bool) (o : option A) : bool :=
  match o with Some x => f x | None => false end.

Fixpoint expr_mentions (e : Expr) : bool :=
  match e with
  | IdentExpr i => sameObj id i
  | BasicLit _ _ => false
  | CompositeLit t elts =>
      opt_mentions expr_mentions t || existsb expr_mentions elts
  | ParenExpr x | StarExpr x | UnaryExpr _ x => expr_mentions x
  | SelectorExpr x sel => expr_mentions x || sameObj id sel
  | IndexExpr x y | BinaryExpr x _ y | KeyValueExpr x y | MapType x y =>
      expr_mentions x || expr_mentions y
  | SliceExpr x lo hi mx =>
      expr_mentions x || opt_mentions expr_mentions lo
      || opt_mentions expr_mentions hi || opt_mentions expr_mentions mx
  | TypeAssertExpr x t => expr_mentions x || opt_mentions expr_mentions t
  | CallExpr f args => expr_mentions f || existsb expr_mentions args
  | ArrayType len elt => opt_mentions expr_mentions len || expr_mentions elt
  end.

Fixpoint stmt_mentions (s : Stmt) : bool :=
  match s with
  | EmptyStmt => false
  | LabeledStmt l b => sameObj id l || stmt_mentions b
  | ExprStmt x | IncDecStmt x _ | GoStmt x | DeferStmt x => expr_mentions x
  | SendStmt c v => expr_mentions c || expr_mentions v
  | AssignStmt lhs _ rhs =>
      existsb expr_mentions lhs || existsb expr_mentions rhs
  | ReturnStmt rs => existsb expr_mentions rs
  | BranchStmt _ l => opt_mentions (sameObj id) l
  | BlockStmt l => existsb stmt_mentions l
  | IfStmt init cond body els =>
      opt_mentions stmt_mentions init || expr_mentions cond
      || existsb stmt_mentions body || opt_mentions stmt_mentions els
  | CaseClause l body =>
      existsb expr_mentions l || existsb stmt_mentions body
  | SwitchStmt init tag body =>
      opt_mentions stmt_mentions init || opt_mentions expr_mentions tag
      || existsb stmt_mentions body
  | ForStmt init cond post_ body =>
      opt_mentions stmt_mentions init || opt_mentions expr_mentions cond
      || opt_mentions stmt_mentions post_ || existsb stmt_mentions body
  | RangeStmt k v _ x body =>
      opt_mentions expr_mentions k || opt_mentions expr_mentions v
      || expr_mentions x || existsb stmt_mentions body
  end.

(** The nodes at which the first callback takes one of its two rules. *)
Definition is_harness_call (e : Expr) : bool :=
  match e with
  | CallExpr (SelectorExpr (IdentExpr ident) _) _ => sameObj id ident
  | _ => false
  end.

Definition is_hoistable (s : Stmt) : bool :=
  match s with
  | ForStmt _ (Some (BinaryExpr _ op (SelectorExpr (IdentExpr ident) _))) _ _ =>
      Token_eqb op LSS && sameObj id ident
  | _ => false
  end.

(** Whether a rule is taken anywhere in a tree. *)
Fixpoint expr_triggers (e : Expr) : bool :=
  is_harness_call e ||
  match e with
  | IdentExpr _ | BasicLit _ _ => false
  | CompositeLit t elts =>
      opt_mentions expr_triggers t || existsb expr_triggers elts
  | ParenExpr x | StarExpr x | UnaryExpr _ x | SelectorExpr x _ =>
      expr_triggers x
  | IndexExpr x y | BinaryExpr x _ y | KeyValueExpr x y | MapType x y =>
      expr_triggers x || expr_triggers y
  | SliceExpr x lo hi mx =>
      expr_triggers x || opt_mentions expr_triggers lo
      || opt_mentions expr_triggers hi || opt_mentions expr_triggers mx
  | TypeAssertExpr x t => expr_triggers x || opt_mentions expr_triggers t
  | CallExpr f args => expr_triggers f || existsb expr_triggers args
  | ArrayType len elt => opt_mentions expr_triggers len || expr_triggers elt
  end.

Fixpoint stmt_triggers (s : Stmt) : bool :=
  is_hoistable s ||
  match s with
  | EmptyStmt | BranchStmt _ _ => false
  | LabeledStmt _ b => stmt_triggers b
  | ExprStmt x | IncDecStmt x _ | GoStmt x | DeferStmt x => expr_triggers x
  | SendStmt c v => expr_triggers c || expr_triggers v
  | AssignStmt lhs _ rhs =>
      existsb expr_triggers lhs || existsb expr_triggers rhs
  | ReturnStmt rs => existsb expr_triggers rs
  | BlockStmt l => existsb stmt_triggers l
  | IfStmt init cond body els =>
      opt_mentions stmt_triggers init || expr_triggers cond
      || existsb stmt_triggers body || opt_mentions stmt_triggers els
  | CaseClause l body =>
      existsb expr_triggers l || existsb stmt_triggers body
  | SwitchStmt init tag body =>
      opt_mentions stmt_triggers init || opt_mentions expr_triggers tag
      || existsb stmt_triggers body
  | ForStmt init cond post_ body =>
      opt_mentions stmt_triggers init || opt_mentions expr_triggers cond
      || opt_mentions stmt_triggers post_ || existsb stmt_triggers body
  | RangeStmt k v _ x body =>
      opt_mentions expr_triggers k || opt_mentions expr_triggers v
      || expr_triggers x || existsb stmt_triggers body
  end.

(** Bodies the two rules clear of the object.  A statement is in the class
    when it has no occurrence; when it is a harness call standing as a
    statement of its own in a statement list; when it is a [for] statement
    with the bound [_ < id._] and no other occurrence in its header, over
    statements of the class; or when it is built from statements of the class
    with no occurrence elsewhere.  [in_list] tells whether the statement is
    an element of a statement list. *)
Fixpoint supported (in_list : bool) (s : Stmt) : bool :=
  negb (stmt_mentions s) ||
  match s with
  | ExprStmt x => in_list && is_harness_call x
  | LabeledStmt l b => negb (sameObj id l) && supported false b
  | BlockStmt l => forallb (supported true) l
  | IfStmt init cond body els =>
      negb (opt_mentions stmt_mentions init) && negb (expr_mentions cond)
      && forallb (supported true) body
      && match els with Some e => supported false e | None => true end
  | CaseClause l body =>
      negb (existsb expr_mentions l) && forallb (supported true) body
  | SwitchStmt init tag body =>
      negb (opt_mentions stmt_mentions init)
      && negb (opt_mentions expr_mentions tag)
      && forallb (supported true) body
  | ForStmt init cond post_ body =>
      negb (opt_mentions stmt_mentions init)
      && negb (opt_mentions stmt_mentions post_)
      && forallb (supported true) body
      && (negb (opt_mentions expr_mentions cond)
          || (is_hoistable s
              && match cond with
                 | Some (BinaryExpr x _ _) => negb (expr_mentions x)
                 | _ => false
                 end))
  | RangeStmt k v _ x body =>
      negb (opt_mentions expr_mentions k)
      && negb (opt_mentions expr_mentions v)
      && negb (expr_mentions x)
      && forallb (supported true) body
  | _ => false
  end.

End Mentions.

(** ** Strings ([strings]) *)

Module Strings.

Definition HasPrefix (s prefix : string) : bool := String.prefix prefix s.

Definition HasSuffix (s suffix : string) : bool :=
  (String.length suffix <=? String.length s)%nat
  && String.eqb
       (substring (String.length s - String.length suffix)
                  (String.length suffix) s)
       suffix.

(** [strings.Replace(s, old, new, 1)]: the leftmost occurrence of [old]. *)
Fixpoint Replace1 (s old new : string) {struct s} : string :=
  if String.prefix old s
  then (new ++ substring (String.length old)
                         (String.length s - String.length old) s)%string
  else match s with
       | EmptyString => EmptyString
       | String c r => String c (Replace1 r old new)
       end.

End Strings.

(** ** Declarations and files ([go/ast]) *)

Module Decls.

(** [ast.Field]: the names declared and their type. *)
Record Field : Type := mkField { Names : list Ident; FieldType : Expr }.

(** [FieldList.NumFields]: a field without names counts once. *)
Definition NumFields (l : list Field) : nat :=
  fold_left (fun n g =>
               let m := List.length (Names g) in
               (n + (if Nat.eqb m 0 then 1 else m))%nat)
            l 0%nat.

(** [ast.FuncDecl]; [Doc] is the list of the comment group, [None] for nil;
    [Params] is [Type.Params.List]; [Body] is [None] for a declaration
    without body. *)
Record FuncDecl : Type := mkFuncDecl {
  Doc : option (list string);
  Recv : option (list Field);
  FuncName : Ident;
  Params : list Field;
  Results : option (list Field);
  Body : option (list Stmt)
}.

Inductive Decl : Type :=
  | DFunc (fd : FuncDecl)
  | DGen (tok : string).

Record File : Type := mkFile { PkgName : string; Decls : list Decl }.

End Decls.
Export Decls.

(** ** Results and effects

    A step of the program yields the effects it had on the outside and
    either a value, or the end of the process by [os.Exit] or by a panic. *)

Module Effects.

Definition error : Type := string.

(** A format and its arguments, as given to [fmt]. *)
Record Message : Type := mkMessage { format : string; args : list string }.

Inductive Effect : Type :=
  | Stdout (m : Message)
  | Stderr (m : Message)
  | Usage
  | EMkdirTemp (dir : string)
  | EMkdir (dir : string)
  | ECreate (path : string)
  | ECopy (from to : string)
  | ETruncate (path : string)
  | EFormat (path : string) (f : File)
  | ERename (from to : string)
  | ECreateMain (path : string)
  | ETemplate (path : string) (origImport func : string)
  | EGo (dir : string) (args : list string)
  | ERemove (path : string).

(** An effect on the file system, as against a message. *)
Definition touches_files (e : Effect) : bool :=
  match e with
  | Stdout _ | Stderr _ | Usage => false
  | _ => true
  end.

(** An effect that changes a file that is there: the source file opened
    with [O_TRUNC] and written anew, or a file renamed. *)
Definition modifies_file (e : Effect) : bool :=
  match e with
  | ETruncate _ | EFormat _ _ | ERename _ _ => true
  | _ => false
  end.

Inductive Outcome (A : Type) : Type :=
  | Ok (a : A)
  | Exit (code : Z)
  | Panic (msg : string).

Arguments Ok {A} a.
Arguments Exit {A} code.
Arguments Panic {A} msg.

Definition IO (A : Type) : Type := (list Effect * Outcome A)%type.

Definition ret {A : Type} (a : A) : IO A := ([], Ok a).

Definition bind {A B : Type} (m : IO A) (k : A -> IO B) : IO B :=
  match m with
  | (t, Ok a) => let '(t', r) := k a in (t ++ t', r)
  | (t, Exit c) => (t, Exit c)
  | (t, Panic msg) => (t, Panic msg)
  end.

Definition emit (e : Effect) : IO unit := ([e], Ok tt).

Definition panic {A : Type} (msg : string) : IO A := ([], Panic msg).

(** [die]: the message on standard error, then [os.Exit(1)]. *)
Definition die {A : Type} (f : string) (a : list string) : IO A :=
  ([Stderr (mkMessage f a)], Exit 1).

(** [dieUsage] *)
Definition dieUsage {A : Type} (f : string) (a : list string) : IO A :=
  ([Stderr (mkMessage f a); Usage], Exit 1).

Definition println (f : string) (a : list string) : IO unit :=
  emit (Stdout (mkMessage f a)).

(** A deferred call: its effects come when the steps after the [defer]
    return and when a panic unwinds them; [os.Exit] ends the process
    without running it. *)
Definition withDefer {A : Type} (deferred : list Effect) (m : IO A)
  : IO A :=
  match m with
  | (t, Ok a) => (t ++ deferred, Ok a)
  | (t, Panic msg) => (t ++ deferred, Panic msg)
  | (t, Exit c) => (t, Exit c)
  end.

End Effects.
Export Effects.

Notation "x <- m ;; k" := (bind m (fun x => k))
  (at level 61, m at next level, right associativity).
Notation "m ;;; k" := (bind m (fun _ => k))
  (at level 61, right associativity).

(** ** The outside: flags, libraries and the operating system

    What the program reads from its flags and what the calls it makes
    outside its own code answer. *)

Record DirEntry : Type := mkDirEntry { EntryName : string; IsDir : bool }.

(** [build.Package], the fields read. *)
Record Package : Type := mkPackage {
  Dir : string;
  TestGoFiles : list string;
  XTestGoFiles : list string
}.

(** [*regexp.Regexp], by its [MatchString]. *)
Definition Regexp : Type := string -> bool.

Record Env : Type := mkEnv {
  os_Getwd : sum string error;
  pathFlag : string;
  nameFlag : string;
  noSrcCleanupFlag : bool;
  binaryPathFlag : string;
  path_Join : string -> string -> string;
  path_IsAbs : string -> bool;
  path_Base : string -> string;
  filepath_Rel : string -> string -> sum string error;
  (* [regexp.MustCompile] panics where this gives [None] *)
  regexp_Compile : string -> option Regexp;
  build_Import : string -> string -> sum Package error;
  (* [parser.ParseFile(fset, path, nil, 0)] *)
  parser_ParseFile : string -> sum File error;
  os_MkdirTemp : sum string error;
  os_Mkdir : string -> option error;
  os_ReadDir : string -> sum (list DirEntry) error;
  os_Open : string -> option error;
  os_Create : string -> option error;
  io_Copy : string -> string -> option error;
  os_OpenFile : string -> option error;
  format_Node : string -> File -> option error;
  os_Rename : string -> string -> option error;
  exec_Output : string -> list string -> sum string error
}.

(** ** The steps of the tool ([main.go]) *)

Module Tool.

Record fnLoc : Type := mkFnLoc { file : string; name : string }.

Definition noinline : string := "//go:noinline".

(** Lines 260 to 274 of [rewriteBenchFuncInPlace]: the identifier of the
    parameter is [Params.List[0].Names[0]], which panics out of range; the
    parameters are dropped, the body is rewritten, and the directive is
    appended to the comment group, made first when there is none. *)
Definition editDecl (d : FuncDecl) : Outcome FuncDecl :=
  match Params d with
  | [] => Panic "index out of range [0] with length 0"
  | f :: _ =>
      match Names f with
      | [] => Panic "index out of range [0] with length 0"
      | testingBIdent :: _ =>
          let body :=
            match Body d with
            | None => Ok None
            | Some l =>
                match removeReferencesToIdentifier testingBIdent
                        (BlockStmt l) with
                | BlockStmt l' => Ok (Some l')
                | _ => Panic "interface conversion"
                end
            end in
          match body with
          | Ok b =>
              let doc := match Doc d with Some l => l | None => [] end in
              Ok (mkFuncDecl (Some (doc ++ [noinline])) (Recv d)
                    (FuncName d) [] (Results d) b)
          | Exit c => Exit c
          | Panic m => Panic m
          end
      end
  end.

(** The first function declaration of the name: the loop over
    [fileAst.Decls]. *)
Fixpoint findDecl (decls : list Decl) (n : string) : option FuncDecl :=
  match decls with
  | [] => None
  | DFunc fd :: r =>
      if String.eqb (Name (FuncName fd)) n then Some fd else findDecl r n
  | DGen _ :: r => findDecl r n
  end.

(** The file after the declaration found was changed in place. *)
Fixpoint updateDecl (decls : list Decl) (n : string) (d' : FuncDecl)
  : list Decl :=
  match decls with
  | [] => []
  | DFunc fd :: r =>
      if String.eqb (Name (FuncName fd)) n then DFunc d' :: r
      else DFunc fd :: updateDecl r n d'
  | DGen t :: r => DGen t :: updateDecl r n d'
  end.

(** [%d] *)
Definition showNat (n : nat) : string :=
  NilEmpty.string_of_uint (Nat.to_uint n).

Section WithEnv.

Variable env : Env.

Definition rewriteBenchFuncInPlace (pkgDir : string) (loc : fnLoc)
  : IO (option error) :=
  let filePath := path_Join env pkgDir (file loc) in
  match parser_ParseFile env filePath with
  | inr err => ret (Some err)
  | inl fileAst =>
      match findDecl (Decls fileAst) (name loc) with
      | None =>
          panic "could not find benchmark declaration after the files have been copied"
      | Some d =>
          (if Nat.eqb (NumFields (Params d)) 1 then ret tt
           else die "Function %s is expected to have exactly one parameter, but got %d"
                    [name loc; showNat (NumFields (Params d))]) ;;;
          match editDecl d with
          | Panic m => panic m
          | Exit c => ([], Exit c)
          | Ok d' =>
              let fileAst' :=
                mkFile (PkgName fileAst)
                       (updateDecl (Decls fileAst) (name loc) d') in
              match os_OpenFile env filePath with
              | Some err =>
                  die "Could not open file %s for writing: %s" [filePath]
              | None =>
                  emit (ETruncate filePath) ;;;
                  match format_Node env filePath fileAst' with
                  | Some err =>
                      die "Could not format modified source: %s" [err]
                  | None =>
                      emit (EFormat filePath fileAst') ;;; ret None
                  end
              end
          end
      end
  end.

Definition renameOne (p : string) (x : DirEntry) : IO (option error) :=
  if IsDir x || negb (Strings.HasSuffix (EntryName x) "_test.go")
  then ret None
  else
    let newName := Strings.Replace1 (EntryName x) "_test.go" "_bborig.go" in
    let fromFilePath := path_Join env p (EntryName x) in
    let toFilePath := path_Join env p newName in
    match os_Rename env fromFilePath toFilePath with
    | Some err => ret (Some err)
    | None => emit (ERename fromFilePath toFilePath) ;;; ret None
    end.

(** A loop that returns at the first error. *)
Fixpoint forEach (A : Type) (f : A -> IO (option error)) (l : list A)
  : IO (option error) :=
  match l with
  | [] => ret None
  | x :: r =>
      e <- f x ;;
      match e with
      | Some err => ret (Some err)
      | None => forEach f r
      end
  end.

Definition renameTestFiles (p : string) : IO (option error) :=
  match os_ReadDir env p with
  | inr err => ret (Some err)
  | inl files => forEach (renameOne p) files
  end.

Definition copyFile (fromPath toPath : string) : IO (option error) :=
  match os_Open env fromPath with
  | Some err => ret (Some err)
  | None =>
      match os_Create env toPath with
      | Some err => ret (Some err)
      | None =>
          emit (ECreate toPath) ;;;
          match io_Copy env fromPath toPath with
          | Some err => ret (Some err)
          | None => emit (ECopy fromPath toPath) ;;; ret None
          end
      end
  end.

Definition copyOne (fromPath toPath : string) (x : DirEntry)
  : IO (option error) :=
  if IsDir x || negb (Strings.HasSuffix (EntryName x) ".go")
  then ret None
  else
    let fromFilePath := path_Join env fromPath (EntryName x) in
    let toFilePath := path_Join env toPath (EntryName x) in
    e <- copyFile fromFilePath toFilePath ;;
    match e with
    | Some err => ret (Some err)
    | None => println "Copied %s -> %s" [fromFilePath; toFilePath] ;;;
              ret None
    end.

Definition copyModuleToTmp (fromPath toPath : string) : IO (option error) :=
  println "Copying from %s -> %s" [fromPath; toPath] ;;;
  match os_ReadDir env fromPath with
  | inr err => ret (Some err)
  | inl files => forEach (copyOne fromPath toPath) files
  end.

Definition runGo (dir : string) (a : list string) : IO (option error) :=
  match exec_Output env dir a with
  | inr err => ret (Some err)
  | inl out => emit (EGo dir a) ;;; println "%s" [out] ;;; ret None
  end.

Definition renderMainToFile (origImport func filePath : string) : IO unit :=
  match os_OpenFile env filePath with
  | Some err => die "Could not open file %s for writing: %s" [filePath]
  | None =>
      emit (ECreateMain filePath) ;;;
      emit (ETemplate filePath origImport func)
  end.

(** The declarations of one file that are selected. *)
Definition benchmarksOf (nameRegex : Regexp) (fileName : string)
    (decls : list Decl) : list fnLoc :=
  flat_map (fun d =>
              match d with
              | DFunc fd =>
                  if negb (Strings.HasPrefix (Name (FuncName fd)) "Benchmark")
                     || negb (nameRegex (Name (FuncName fd)))
                  then []
                  else [mkFnLoc fileName (Name (FuncName fd))]
              | DGen _ => []
              end) decls.

Fixpoint findInFiles (pkg : Package) (nameRegex : Regexp)
    (files : list string) : IO (list fnLoc) :=
  match files with
  | [] => ret []
  | fileName :: r =>
      let p := path_Join env (Dir pkg) fileName in
      match parser_ParseFile env p with
      | inr err =>
          println "%s: ignored file because it could not be parsed: %s"
                  [p; err] ;;;
          findInFiles pkg nameRegex r
      | inl f =>
          rest <- findInFiles pkg nameRegex r ;;
          ret (benchmarksOf nameRegex fileName (Decls f) ++ rest)
      end
  end.

Definition findBenchmarkFuncs (pkg : Package) (nameRegex : Regexp)
  : IO (list fnLoc) :=
  findInFiles pkg nameRegex (TestGoFiles pkg ++ XTestGoFiles pkg).

(** What [main] has in hand once a function is selected. *)
Record Selected : Type := mkSelected {
  cwd : string;
  binaryPath : string;
  pkg : Package;
  benchFuncLoc : fnLoc
}.

(** [main], lines 44 to 90: flags, import and selection. *)
Definition selectFunc : IO Selected :=
  match os_Getwd env with
  | inr err => die "Could not find current working directory: %s" [err]
  | inl cwd =>
      (if String.eqb (pathFlag env) "" then dieUsage "Missing -p flag." []
       else ret tt) ;;;
      (if String.eqb (nameFlag env) "" then dieUsage "Missing -n flag." []
       else ret tt) ;;;
      let binaryPath :=
        if negb (String.eqb (binaryPathFlag env) "")
        then (if negb (path_IsAbs env (binaryPathFlag env))
              then path_Join env cwd (binaryPathFlag env)
              else binaryPathFlag env)
        else path_Join env cwd "benchmark.binary" in
      let module := pathFlag env in
      match regexp_Compile env (".*" ++ nameFlag env ++ ".*")%string with
      | None => panic "regexp: Compile"
      | Some nameRegex =>
          match build_Import env module cwd with
          | inr err =>
              die "Could not import provided module '%s': %s" [module; err]
          | inl pkg =>
              foundBenchFuncs <- findBenchmarkFuncs pkg nameRegex ;;
              match foundBenchFuncs with
              | [] =>
                  die "Could not find any benchmark function in %s matching %s"
                      [module; nameFlag env]
              | first :: more =>
                  ((map (fun x => Stdout (mkMessage
                                            "Found matching function: %s (%s)"
                                            [name x; file x]))
                        foundBenchFuncs, Ok tt) : IO unit) ;;;
                  match more with
                  | _ :: _ =>
                      die "There should be only one matching function in %s for %s, but found %d"
                          [module; nameFlag env;
                           showNat (List.length foundBenchFuncs)]
                  | [] => ret (mkSelected cwd binaryPath pkg first)
                  end
              end
          end
      end
  end.

(** [main], lines 92 to 118: the scratch directory and the copy. *)
Definition prepare (sel : Selected) : IO (string * string) :=
  match os_MkdirTemp env with
  | inr err => die "Could not create temporary source directory: %s" [err]
  | inl tmpDir =>
      emit (EMkdirTemp tmpDir) ;;;
      println "Temporary source directory: %s" [tmpDir] ;;;
      let bborigPath := path_Join env tmpDir "bborig" in
      match os_Mkdir env bborigPath with
      | Some err =>
          die "Could not create original source directory at '%s': %s"
              [bborigPath; err]
      | None =>
          emit (EMkdir bborigPath) ;;;
          e <- copyModuleToTmp (Dir (pkg sel)) bborigPath ;;
          match e with
          | Some err =>
              die "Failed to copy original sources from '%s' to '%s': %s"
                  [Dir (pkg sel); bborigPath; err]
          | None =>
              match filepath_Rel env (cwd sel) bborigPath with
              | inr err =>
                  die "Could not compute relative path from %s to %s"
                      [cwd sel; bborigPath]
              | inl bborigModulePath => ret (tmpDir, bborigModulePath)
              end
          end
      end
  end.

Definition orDie (f : string) (m : IO (option error)) : IO unit :=
  e <- m ;;
  match e with
  | Some err => die f [err]
  | None => ret tt
  end.

(** [main], lines 125 to 129. *)
Definition rewrite (sel : Selected) (bborigModulePath : string) : IO unit :=
  println "Rewriting benchmark function" [] ;;;
  orDie "Could not rewrite benchmark function: %s"
        (rewriteBenchFuncInPlace bborigModulePath (benchFuncLoc sel)).

(** [main], lines 131 to 166. *)
Definition build (sel : Selected) (tmpDir bborigModulePath : string)
  : IO unit :=
  println "Renaming test files" [] ;;;
  orDie "Could not rename test files: %s"
        (renameTestFiles bborigModulePath) ;;;
  let tmpModuleName := path_Base env tmpDir in
  let fullTmpModule := ("example.com/" ++ tmpModuleName)%string in
  let mainFilePath := path_Join env tmpDir "main.go" in
  renderMainToFile (fullTmpModule ++ "/bborig")%string
                   (name (benchFuncLoc sel)) mainFilePath ;;;
  println "Initializing module %s" [fullTmpModule] ;;;
  orDie "Failed to init module: %s"
        (runGo tmpDir ["mod"; "init"; fullTmpModule]) ;;;
  println "Running tidy" [] ;;;
  orDie "Failed to tidy module: %s" (runGo tmpDir ["mod"; "tidy"]) ;;;
  println "Compiling" [] ;;;
  orDie "Failed to compile benchmark binary: %s"
        (runGo tmpDir ["build"; "-o"; binaryPath sel]) ;;;
  println "Benchmark binary ready at %s" [binaryPath sel].

(** [defer os.Remove(tmpDir)], lines 97 to 99, unless the flag says to keep
    the directory.  The call is registered right after [os.MkdirTemp]; the
    steps of [prepare] that follow it leave by [os.Exit] only, which runs no
    deferred call, so the deferral is attached to the steps after them. *)
Definition cleanup (tmpDir : string) : list Effect :=
  if noSrcCleanupFlag env then [] else [ERemove tmpDir].

Definition main : IO unit :=
  sel <- selectFunc ;;
  dirs <- prepare sel ;;
  withDefer (cleanup (fst dirs))
    (rewrite sel (snd dirs) ;;;
     build sel (fst dirs) (snd dirs)).

End WithEnv.

End Tool.
Export Tool.

(** ** Sample trees *)

Module Samples.

(** The parameter [h] of the function under rewrite is object 1; the loop
    variable [i] is object 2. *)
Definition h : Ident := mkIdent "h" (Some 1%nat).
Definition i : Ident := mkIdent "i" (Some 2%nat).

Definition ref (s : string) : Expr := IdentExpr (mkIdent s None).
Definition sel (x : Expr) (s : string) : Expr :=
  SelectorExpr x (mkIdent s None).
Definition callStmt (f : Expr) (args : list Expr) : Stmt :=
  ExprStmt (CallExpr f args).
(** [h.m()] *)
Definition harnessCall (m : string) : Expr :=
  CallExpr (sel (IdentExpr h) m) [].

(** [h.StartTimer(); compute(); h.StopTimer()] *)
Definition timers : list Stmt :=
  [ ExprStmt (harnessCall "StartTimer");
    callStmt (ref "compute") [];
    ExprStmt (harnessCall "StopTimer") ].

(** [if h.Failed() { x() }] *)
Definition guarded : list Stmt :=
  [ IfStmt None (harnessCall "Failed") [callStmt (ref "x") []] None ].

(** [foo(h.Bar(), y)] *)
Definition nestedArg : list Stmt :=
  [ callStmt (ref "foo") [harnessCall "Bar"; ref "y"] ].

(** [for i := 0; i < h.N; i++ { body }] *)
Definition benchLoop (body : list Stmt) : Stmt :=
  ForStmt (Some (AssignStmt [IdentExpr i] DEFINE [BasicLit INT "0"]))
          (Some (BinaryExpr (IdentExpr i) LSS (sel (IdentExpr h) "N")))
          (Some (IncDecStmt (IdentExpr i) INC))
          body.

(** [total += x] *)
Definition accumulate : Stmt :=
  AssignStmt [ref "total"] ADD_ASSIGN [ref "x"].

(** [setup(); for i := 0; i < h.N; i++ { total += x; work() }; report()] *)
Definition plainLoop : list Stmt :=
  [ callStmt (ref "setup") [];
    benchLoop [accumulate; callStmt (ref "work") []];
    callStmt (ref "report") [] ].

(** [for i := 0; i < h.N; i++ { h.StopTimer(); work() }] *)
Definition timedLoop : list Stmt :=
  [ benchLoop [ExprStmt (harnessCall "StopTimer");
               callStmt (ref "work") []] ].

(** The body of [BenchmarkMe] in the example package of the repository:
    [data := []int{1, 2}; h.SetBytes(int64(len(data)) * 8);
     for i := 0; i < h.N; i++ { total := 0;
       for _, x := range data { total += x } }] *)
Definition exampleInner : list Stmt :=
  [ AssignStmt [ref "total"] DEFINE [BasicLit INT "0"];
    RangeStmt (Some (ref "_")) (Some (ref "x")) DEFINE (ref "data")
              [accumulate] ].

Definition exampleData : Stmt :=
  AssignStmt [ref "data"] DEFINE
    [CompositeLit (Some (ArrayType None (ref "int")))
                  [BasicLit INT "1"; BasicLit INT "2"]].

Definition exampleBody : list Stmt :=
  [ exampleData;
    ExprStmt
      (CallExpr (sel (IdentExpr h) "SetBytes")
         [BinaryExpr
            (CallExpr (ref "int64") [CallExpr (ref "len") [ref "data"]])
            MUL (BasicLit INT "8")]);
    benchLoop exampleInner ].

(** [func BenchmarkMe(h *testing.B) { h.StartTimer(); compute();
    h.StopTimer() }], with the comment group given. *)
Definition testingB : Expr := StarExpr (sel (ref "testing") "B").

Definition benchDecl (doc : option (list string)) (params : list Field)
  : FuncDecl :=
  mkFuncDecl doc None (mkIdent "BenchmarkMe" None) params None (Some timers).

Definition namedParam : list Field := [mkField [h] testingB].
(** The same parameter without a name. *)
Definition anonymousParam : list Field := [mkField [] testingB].
(** [func BenchmarkMe(h *testing.B, n int)] *)
Definition twoParams : list Field :=
  [mkField [h] testingB; mkField [mkIdent "n" (Some 3%nat)] (ref "int")].

(** A function declaration of a name with one named parameter and an
    empty body. *)
Definition funcNamed (n : string) : Decl :=
  DFunc (mkFuncDecl None None (mkIdent n None) namedParam None (Some [])).

(** Whether [sub] occurs in [s]. *)
Definition contains (sub s : string) : bool :=
  match index 0 sub s with Some _ => true | None => false end.

(** A world for trying the tool: the package [pkg] in the directory [pkg]
    has the one test file [x_test.go] with the declarations given and the
    directory listing given; every call succeeds.  The stand-in for
    [regexp] answers as the library does on a pattern [.*lit.*] whose
    middle has no metacharacter: whether the middle occurs in the name. *)
Definition world (pattern : string) (decls : list Decl)
    (listing : list DirEntry) : Env :=
  {| os_Getwd := inl "/work";
     pathFlag := "./pkg";
     nameFlag := pattern;
     noSrcCleanupFlag := false;
     binaryPathFlag := "";
     path_Join := fun a b => (a ++ "/" ++ b)%string;
     path_IsAbs := fun a => String.prefix "/" a;
     path_Base := fun _ => "go-bb-1";
     filepath_Rel := fun _ t => inl t;
     regexp_Compile := fun p =>
       Some (contains (substring 2 (String.length p - 4) p));
     build_Import := fun _ _ => inl (mkPackage "pkg" ["x_test.go"] []);
     parser_ParseFile := fun path =>
       if String.eqb path "pkg/x_test.go"
          || String.eqb path "/tmp/go-bb-1/bborig/x_test.go"
       then inl (mkFile "example" decls)
       else inr "no such file";
     os_MkdirTemp := inl "/tmp/go-bb-1";
     os_Mkdir := fun _ => None;
     os_ReadDir := fun _ => inl listing;
     os_Open := fun _ => None;
     os_Create := fun _ => None;
     io_Copy := fun _ _ => None;
     os_OpenFile := fun _ => None;
     format_Node := fun _ _ => None;
     os_Rename := fun _ _ => None;
     exec_Output := fun _ _ => inl "" |}.

(** The pattern [BenchmarkMe] over a test file that declares [BenchmarkMe],
    [TestMe] and [BenchmarkMeToo]. *)
Definition twoBenchmarks : Env :=
  world "BenchmarkMe"
        [funcNamed "BenchmarkMe"; funcNamed "TestMe";
         funcNamed "BenchmarkMeToo"] [].

Definition samplePkg : Package := mkPackage "pkg" ["x_test.go"] [].

(** The pattern [BenchmarkMe] over a test file whose [BenchmarkMe] has two
    parameters. *)
Definition wrongShape : Env :=
  world "BenchmarkMe" [DFunc (benchDecl None twoParams)]
        [mkDirEntry "x_test.go" false].

(** A scratch directory that holds [a_test.go_test.go], the directory
    [sub_test.go] and [lib.go]. *)
Definition doubleSuffix : Env :=
  world "BenchmarkMe" []
        [mkDirEntry "a_test.go_test.go" false;
         mkDirEntry "sub_test.go" true;
         mkDirEntry "lib.go" false].

End Samples.

(** ** The traversal, observed

    The callbacks once more, with a record of every call: the cursor and what
    the callback did.  The callbacks proper are run unchanged on the state. *)

Module Trace.

Inductive Event : Type :=
  | EvPre (c : Cursor) (a : PreAction)
  | EvPost (c : Cursor) (deleted : bool).

Definition Traced : Type := (State * list Event)%type.

Definition traced_pre (id : Ident) (c : Cursor) (s : Traced)
  : PreAction * Traced :=
  let '(a, st) := pre id c (fst s) in (a, (st, snd s ++ [EvPre c a])).

Definition traced_post (c : Cursor) (s : Traced) : bool * Traced :=
  let '(d, st) := post c (fst s) in (d, (st, snd s ++ [EvPost c d])).

Definition trace (id : Ident) (root : Stmt) : list Event :=
  snd (snd (Apply (traced_pre id) traced_post root (initState, []))).


(** The nodes the second callback deleted, with their indices. *)
Definition deletions (l : list Event) : list Cursor :=
  flat_map (fun e => match e with
                     | EvPost c true => [c]
                     | _ => []
                     end) l.

(** The nodes at which the flag was raised. *)
Definition raises (l : list Event) : list Node :=
  flat_map (fun e => match e with
                     | EvPre c Prune => [Node_ c]
                     | _ => []
                     end) l.

Definition is_prune (a : PreAction) : bool :=
  match a with Prune => true | _ => false end.

(** Reading a record from a given state of the flag: a call of the first
    callback that prunes raises it; a call of the second callback must delete
    exactly when the flag is up and the cursor is in a slice, and a deletion
    takes the flag down.  The result is the flag at the end, if every call of
    the second callback did so. *)
Fixpoint replay (pending : bool) (l : list Event) : option bool :=
  match l with
  | [] => Some pending
  | EvPre _ a :: r => replay (pending || is_prune a) r
  | EvPost c d :: r =>
      if Bool.eqb d (pending && (0 <=? Index c))
      then replay (pending && negb d) r
      else None
  end.

End Trace.
Export Trace.

(** ** Notions the proofs are stated in *)

Module Notions.

(** A walk leaves node and state alone, from any state with the flag
    down. *)
Definition fixes {A : Type} (f : Z -> A -> State -> option A * State)
    (x : A) : Prop :=
  forall idx st, deleteMe st = false -> f idx x st = (Some x, st).

(** Two results that agree on the value and correspond on the state. *)
Definition rel {S1 S2 A : Type} (R : S1 -> S2 -> Prop)
    (r1 : A * S1) (r2 : A * S2) : Prop :=
  fst r1 = fst r2 /\ R (snd r1) (snd r2).

Definition frel {S1 S2 A : Type} (R : S1 -> S2 -> Prop)
    (f1 : Z -> A -> S1 -> option A * S1)
    (f2 : Z -> A -> S2 -> option A * S2) (x : A) : Prop :=
  forall idx s1 s2, R s1 s2 -> rel R (f1 idx x s1) (f2 idx x s2).

(** The record read from the start gives the flag. *)
Definition agrees (s : Traced) : Prop :=
  replay false (snd s) = Some (deleteMe (fst s)).

(** The flag is down, and the node is gone from its slice or is free of
    occurrences. *)
Definition good (id : Ident) (idx : Z) (r : option Stmt * State) : Prop :=
  deleteMe (snd r) = false
  /\ match fst r with
     | Some s' => stmt_mentions id s' = false
     | None => 0 <= idx
     end.

Definition stmt_ok (id : Ident) (s : Stmt) : Prop :=
  forall in_list idx st,
    supported id in_list s = true ->
    (in_list = true -> 0 <= idx) ->
    deleteMe st = false ->
    good id idx (apply_stmt (pre id) post idx s st).

(** The step of [NumFields]. *)
Definition fieldCount (n : nat) (g : Field) : nat :=
  let m := List.length (Names g) in
  (n + (if Nat.eqb m 0 then 1 else m))%nat.

(** No effect of a step has the property. *)
Definition all_effects {A : Type} (P : Effect -> bool) (m : IO A) : Prop :=
  Forall (fun e => P e = false) (fst m).

End Notions.
Export Notions.

(** ** Further notions and samples *)

Module More.

(** A string without its first [k] characters. *)
Definition dropStr (k : nat) (s : string) : string :=
  substring k (String.length s - k) s.

(** Every effect of a step has the property. *)
Definition effects_sat {A : Type} (Q : Effect -> Prop) (m : IO A) : Prop :=
  Forall Q (fst m).


(** The message of [findBenchmarkFuncs] for a file that does not parse. *)
Definition ignoredMessages (env : Env) (pkg : Package)
    (files : list string) : list Effect :=
  flat_map (fun fileName =>
              let p := path_Join env (Dir pkg) fileName in
              match parser_ParseFile env p with
              | inr err =>
                  [Stdout (mkMessage
                     "%s: ignored file because it could not be parsed: %s"
                     [p; err])]
              | inl _ => []
              end) files.

(** The path of the binary as [main] settles it. *)
Definition binaryPathOf (env : Env) (cwd_ : string) : string :=
  if String.eqb (binaryPathFlag env) "" then path_Join env cwd_ "benchmark.binary"
  else if path_IsAbs env (binaryPathFlag env) then binaryPathFlag env
       else path_Join env cwd_ (binaryPathFlag env).

(** [x := h.N]: an occurrence of the harness object at which no rule is
    taken. *)
Definition readsN : Stmt :=
  AssignStmt [Samples.ref "x"] DEFINE
             [Samples.sel (IdentExpr Samples.h) "N"].

End More.
Export More.

(** * Properties *)

Unset Implicit Arguments.

(** ** Generalities *)

Lemma list_all_of_forall (A : Type) (P : A -> Prop) (l : list A) :
  (forall x, P x) -> @list_all A P l.
Proof. intros H; induction l; constructor; auto. Qed.

Lemma option_all_of_forall (A : Type) (P : A -> Prop) (o : option A) :
  (forall x, P x) -> @option_all A P o.
Proof. intros H; destruct o; constructor; auto. Qed.

Ltac split_orb :=
  repeat match goal with
         | H : (_ || _)%bool = false |- _ =>
             apply orb_false_iff in H; destruct H
         end.

(** ** What the first callback does, by the shape of the node *)

Section PreCases.

Variable id : Ident.

Lemma pre_expr (e : Expr) (idx : Z) (st : State) :
  pre id (mkCursor (NExpr e) idx) st =
  if is_harness_call id e
  then (Prune, mkState (depth st) true)
  else (Walk, incDepth st).
Proof.
  destruct e as [ | | | | | | | |f args| | | | | | ]; try reflexivity.
  destruct f as [ | | | |x sl| | | | | | | | | | ]; try reflexivity.
  destruct x; reflexivity.
Qed.

Lemma pre_stmt (s : Stmt) (idx : Z) (st : State) :
  pre id (mkCursor (NStmt s) idx) st =
  (if is_hoistable id s then ReplaceWithBody else Walk, incDepth st).
Proof.
  destruct s as [ | | | | | | | | | | | | | |init cond p body| ];
    try reflexivity.
  destruct cond as [[ | | | | | | | | | | |x op y| | | ]|]; try reflexivity.
  unfold pre, is_hoistable; cbn [Node_].
  destruct y as [ | | | |z sl| | | | | | | | | | ];
    try (destruct (Token_eqb op LSS); reflexivity).
  destruct z; try (destruct (Token_eqb op LSS); reflexivity).
  destruct (Token_eqb op LSS); [|reflexivity].
  cbn [andb]. now destruct (sameObj id id0).
Qed.

Lemma pre_nil (idx : Z) (st : State) :
  pre id (mkCursor NNil idx) st = (Walk, incDepth st).
Proof. reflexivity. Qed.

End PreCases.

(** ** Trees in which no rule is taken are left as they are *)

Section Clean.

Variable id : Ident.

Abbreviation clean_state st := (deleteMe st = false).

Lemma post_incDepth (c : Cursor) (st : State) :
  clean_state st -> post c (incDepth st) = (false, st).
Proof.
  destruct st as [d dm]; simpl; intros ->.
  unfold post; simpl. do 2 f_equal. lia.
Qed.

Lemma visit_nil_clean (st : State) :
  clean_state st -> visit_leaf (pre id) post NNil st = st.
Proof.
  intros H. unfold visit_leaf. simpl. now rewrite post_incDepth.
Qed.

Lemma ident_leaf_clean (i : Ident) (st : State) :
  clean_state st -> ident_leaf (pre id) post i st = st.
Proof.
  intros H. unfold ident_leaf, visit_leaf. simpl. now rewrite post_incDepth.
Qed.

Lemma single_fixes (A : Type) f (x : A) (st : State) :
  fixes f x -> clean_state st -> single f x st = (x, st).
Proof. intros F H. unfold single. now rewrite F. Qed.

Lemma optional_fixes (A : Type) f (trig : A -> bool) (o : option A)
    (st : State) :
  @option_all A (fun x => trig x = false -> fixes f x) o ->
  opt_mentions trig o = false ->
  clean_state st ->
  optional (pre id) post f o st = (o, st).
Proof.
  intros [x F|] M H; simpl.
  - rewrite single_fixes; auto.
  - now rewrite visit_nil_clean.
Qed.

Lemma applyList_fixes (A : Type) f (trig : A -> bool) (l : list A) :
  @list_all A (fun x => trig x = false -> fixes f x) l ->
  existsb trig l = false ->
  forall idx st, clean_state st -> applyList f idx l st = (l, st).
Proof.
  induction 1 as [|x F r _ IH]; simpl; intros M idx st H; [reflexivity|].
  apply orb_false_iff in M as [Mx Mr].
  rewrite (F Mx idx st H). now rewrite IH.
Qed.

Lemma block_fixes f (body : list Stmt) (st : State) :
  @list_all Stmt (fun x => stmt_triggers id x = false -> fixes f x) body ->
  existsb (stmt_triggers id) body = false ->
  clean_state st ->
  block (pre id) post f body st = (body, st).
Proof.
  intros F M H. unfold block.
  rewrite pre_stmt. cbn [is_hoistable].
  rewrite (applyList_fixes _ _ _ _ F M) by (cbn; exact H).
  now rewrite post_incDepth.
Qed.

Ltac walk_clean :=
  repeat first
    [ rewrite single_fixes by auto
    | rewrite ident_leaf_clean by auto
    | rewrite visit_nil_clean by auto
    | erewrite optional_fixes by eauto
    | erewrite applyList_fixes by eauto
    | erewrite block_fixes by eauto ].

Lemma apply_expr_clean (e : Expr) :
  expr_triggers id e = false -> fixes (apply_expr (pre id) post) e.
Proof.
  induction e; intros M idx st Hst;
    cbn [apply_expr]; rewrite pre_expr;
    cbn [expr_triggers] in M; apply orb_false_iff in M as [-> M];
    split_orb; walk_clean; now rewrite post_incDepth.
Qed.

Lemma apply_stmt_clean (s : Stmt) :
  stmt_triggers id s = false -> fixes (apply_stmt (pre id) post) s.
Proof.
  pose proof apply_expr_clean as E.
  pose proof (fun l => list_all_of_forall _ _ l E) as EL.
  pose proof (fun o => option_all_of_forall _ _ o E) as EO.
  induction s; intros M idx st Hst;
    cbn [apply_stmt]; rewrite pre_stmt;
    cbn [stmt_triggers] in M; apply orb_false_iff in M as [-> M];
    split_orb;
    try match goal with
        | l : option Ident |- _ => destruct l
        end;
    walk_clean; now rewrite post_incDepth.
Qed.

(** A tree without an occurrence has no node at which a rule is taken. *)
Lemma is_harness_call_mentions (e : Expr) :
  expr_mentions id e = false -> is_harness_call id e = false.
Proof.
  destruct e as [ | | | | | | | |f args| | | | | | ]; try reflexivity.
  destruct f as [ | | | |x sl| | | | | | | | | | ]; try reflexivity.
  destruct x; try reflexivity.
  cbn [expr_mentions is_harness_call]. intros H. now split_orb.
Qed.

Lemma is_hoistable_mentions (s : Stmt) :
  stmt_mentions id s = false -> is_hoistable id s = false.
Proof.
  destruct s as [ | | | | | | | | | | | | | |init cond p body| ];
    try reflexivity.
  destruct cond as [[ | | | | | | | | | | |x op y| | | ]|]; try reflexivity.
  destruct y as [ | | | |z sl| | | | | | | | | | ]; try reflexivity.
  destruct z; try reflexivity.
  cbn [stmt_mentions opt_mentions expr_mentions is_hoistable]. intros H.
  split_orb.
  match goal with M : sameObj id _ = false |- _ => rewrite M end.
  apply andb_false_r.
Qed.

Lemma existsb_false_mono (A : Type) (p q : A -> bool) (l : list A) :
  @list_all A (fun x => p x = false -> q x = false) l ->
  existsb p l = false -> existsb q l = false.
Proof.
  induction 1 as [|x F r _ IH]; simpl; intros M; [reflexivity|].
  apply orb_false_iff in M as [Mx Mr]. now rewrite F, IH.
Qed.

Lemma opt_false_mono (A : Type) (p q : A -> bool) (o : option A) :
  @option_all A (fun x => p x = false -> q x = false) o ->
  opt_mentions p o = false -> opt_mentions q o = false.
Proof. intros [x F|]; simpl; auto. Qed.

Ltac mono :=
  repeat first
    [ reflexivity
    | apply orb_false_iff; split
    | eapply existsb_false_mono; [solve [eauto]|assumption]
    | eapply opt_false_mono; [solve [eauto]|assumption]
    | solve [auto] ].

Lemma expr_triggers_mentions (e : Expr) :
  expr_mentions id e = false -> expr_triggers id e = false.
Proof.
  induction e; intros M; cbn [expr_triggers];
    rewrite (is_harness_call_mentions _ M);
    cbn [expr_mentions] in M; split_orb; cbn [orb]; mono.
Qed.

Lemma stmt_triggers_mentions (s : Stmt) :
  stmt_mentions id s = false -> stmt_triggers id s = false.
Proof.
  pose proof expr_triggers_mentions as E.
  pose proof (fun l => list_all_of_forall _ _ l E) as EL.
  pose proof (fun o => option_all_of_forall _ _ o E) as EO.
  induction s; intros M; cbn [stmt_triggers];
    rewrite (is_hoistable_mentions _ M);
    cbn [stmt_mentions] in M; split_orb; cbn [orb]; mono.
Qed.

End Clean.

(** ** Two runs of the traversal on states that correspond *)

Section Simulation.

Variables S1 S2 : Type.
Variable R : S1 -> S2 -> Prop.
Variable pre1 : Cursor -> S1 -> PreAction * S1.
Variable post1 : Cursor -> S1 -> bool * S1.
Variable pre2 : Cursor -> S2 -> PreAction * S2.
Variable post2 : Cursor -> S2 -> bool * S2.

Abbreviation relR := (rel R).
Abbreviation frelR := (frel R).

Hypothesis pre_rel : forall c s1 s2, R s1 s2 -> relR (pre1 c s1) (pre2 c s2).
Hypothesis post_rel :
  forall c s1 s2, R s1 s2 -> relR (post1 c s1) (post2 c s2).

Lemma rel_pair (A : Type) (a : A) s1 s2 : R s1 s2 -> relR (a, s1) (a, s2).
Proof. now split. Qed.

(** Both sides bind a pair that corresponds: name its parts. *)
Ltac bind_rel tac :=
  match goal with
  | |- relR (let '(_, _) := ?m1 in _) (let '(_, _) := ?m2 in _) =>
      let H := fresh "H" in
      let E := fresh "E" in
      let a1 := fresh "a" in
      let a2 := fresh "b" in
      let t1 := fresh "s" in
      let t2 := fresh "t" in
      assert (H : relR m1 m2) by tac;
      destruct m1 as [a1 t1], m2 as [a2 t2];
      destruct H as [E H]; cbn [fst snd] in E, H; subst a2
  end.

Lemma visit_leaf_rel (n : Node) s1 s2 :
  R s1 s2 -> R (visit_leaf pre1 post1 n s1) (visit_leaf pre2 post2 n s2).
Proof.
  intros H. unfold visit_leaf.
  destruct (pre_rel (mkCursor n (-1)) _ _ H) as [E H1].
  destruct (pre1 _ s1) as [a t1], (pre2 _ s2) as [b t2].
  cbn [fst snd] in E, H1; subst b.
  destruct a; auto; now apply post_rel.
Qed.

Lemma single_rel (A : Type) f1 f2 (x : A) s1 s2 :
  frelR f1 f2 x -> R s1 s2 -> relR (single f1 x s1) (single f2 x s2).
Proof.
  intros F H. unfold single.
  bind_rel ltac:(now apply F). now apply rel_pair.
Qed.

Lemma optional_rel (A : Type) f1 f2 (o : option A) s1 s2 :
  @option_all A (frelR f1 f2) o -> R s1 s2 ->
  relR (optional pre1 post1 f1 o s1) (optional pre2 post2 f2 o s2).
Proof.
  intros [x F|] H; unfold optional.
  - bind_rel ltac:(now apply single_rel). now apply rel_pair.
  - apply rel_pair. now apply visit_leaf_rel.
Qed.

Lemma applyList_rel (A : Type) f1 f2 (l : list A) :
  @list_all A (frelR f1 f2) l ->
  forall idx s1 s2, R s1 s2 ->
  relR (applyList f1 idx l s1) (applyList f2 idx l s2).
Proof.
  induction 1 as [|x F r _ IH]; intros idx s1 s2 H; cbn [applyList].
  - now apply rel_pair.
  - bind_rel ltac:(now apply F).
    destruct a.
    + bind_rel ltac:(now apply IH). now apply rel_pair.
    + now apply IH.
Qed.

Lemma block_rel f1 f2 (body : list Stmt) s1 s2 :
  @list_all Stmt (frelR f1 f2) body -> R s1 s2 ->
  relR (block pre1 post1 f1 body s1) (block pre2 post2 f2 body s2).
Proof.
  intros F H. unfold block.
  bind_rel ltac:(now apply pre_rel).
  destruct a; try now apply rel_pair.
  all: bind_rel ltac:(now apply applyList_rel).
  all: bind_rel ltac:(now apply post_rel).
  all: now apply rel_pair.
Qed.

Ltac solve_R := repeat apply visit_leaf_rel; assumption.

Ltac solve_rel :=
  cbv zeta; unfold ident_leaf;
  first
    [ apply rel_pair; solve_R
    | apply pre_rel; solve_R
    | apply post_rel; solve_R
    | apply single_rel; [solve [auto] | solve_R]
    | apply optional_rel; [solve [auto] | solve_R]
    | apply applyList_rel; [solve [auto] | solve_R]
    | apply block_rel; [solve [auto] | solve_R]
    | match goal with
      | |- relR (let '(_, _) := ?m1 in _) (let '(_, _) := ?m2 in _) =>
          let W := fresh "W" in
          let E := fresh "E" in
          let a1 := fresh "a" in
          let a2 := fresh "b" in
          let t1 := fresh "s" in
          let t2 := fresh "t" in
          assert (W : relR m1 m2) by solve_rel;
          destruct m1 as [a1 t1], m2 as [a2 t2];
          destruct W as [E W]; cbn [fst snd] in E, W; subst a2;
          solve_rel
      | |- relR (if ?d then _ else _) _ => destruct d; solve_rel
      | |- relR (match ?a with Prune => _ | Walk => _ | ReplaceWithBody => _
                end) _ => destruct a; solve_rel
      end ].

Lemma apply_expr_rel (e : Expr) : frelR (apply_expr pre1 post1)
                                       (apply_expr pre2 post2) e.
Proof.
  induction e; intros idx s1 s2 HR; cbn [apply_expr]; solve_rel.
Qed.

Lemma apply_stmt_rel (s : Stmt) : frelR (apply_stmt pre1 post1)
                                       (apply_stmt pre2 post2) s.
Proof.
  pose proof apply_expr_rel as E.
  pose proof (fun l => list_all_of_forall _ _ l E) as EL.
  pose proof (fun o => option_all_of_forall _ _ o E) as EO.
  induction s; intros idx s1 s2 HR; cbn [apply_stmt];
    try match goal with l : option Ident |- _ => destruct l end;
    solve_rel.
Qed.

Lemma Apply_rel (root : Stmt) s1 s2 :
  R s1 s2 -> relR (Apply pre1 post1 root s1) (Apply pre2 post2 root s2).
Proof. intros H. apply single_rel; auto. apply apply_stmt_rel. Qed.

End Simulation.

(** ** The record of a run *)

Section TraceFacts.

Variable id : Ident.

Lemma traced_pre_erase (c : Cursor) (s : Traced) (st : State) :
  fst s = st ->
  rel (fun (s : Traced) st => fst s = st) (traced_pre id c s) (pre id c st).
Proof.
  intros <-. unfold traced_pre. destruct (pre id c (fst s)); now split.
Qed.

Lemma traced_post_erase (c : Cursor) (s : Traced) (st : State) :
  fst s = st ->
  rel (fun (s : Traced) st => fst s = st) (traced_post c s) (post c st).
Proof.
  intros <-. unfold traced_post. destruct (post c (fst s)); now split.
Qed.

(** The recorded run rewrites the tree as the plain run does, and ends in
    the same state. *)
Lemma traced_Apply (root : Stmt) :
  fst (Apply (traced_pre id) traced_post root (initState, []))
    = removeReferencesToIdentifier id root
  /\ fst (snd (Apply (traced_pre id) traced_post root (initState, [])))
    = finalState id root.
Proof.
  apply (Apply_rel _ _ (fun (s : Traced) st => fst s = st)
           (traced_pre id) traced_post (pre id) post).
  - apply traced_pre_erase.
  - apply traced_post_erase.
  - reflexivity.
Qed.

Lemma replay_app (l1 l2 : list Event) (p : bool) :
  replay p (l1 ++ l2) =
  match replay p l1 with Some q => replay q l2 | None => None end.
Proof.
  revert p; induction l1 as [|[c a|c d] l1 IH]; intros p; cbn [replay app].
  - reflexivity.
  - apply IH.
  - destruct (Bool.eqb _ _); [apply IH|reflexivity].
Qed.

Lemma pre_flag (c : Cursor) (st : State) :
  deleteMe (snd (pre id c st))
  = (deleteMe st || is_prune (fst (pre id c st)))%bool.
Proof.
  destruct c as [[|e|s] idx].
  - cbn. now rewrite orb_false_r.
  - rewrite pre_expr. destruct (is_harness_call id e); cbn.
    + now rewrite orb_true_r.
    + now rewrite orb_false_r.
  - rewrite pre_stmt. destruct (is_hoistable id s); cbn;
      now rewrite orb_false_r.
Qed.

Lemma traced_pre_agrees (c : Cursor) (s : Traced) :
  agrees s -> agrees (snd (traced_pre id c s)).
Proof.
  unfold agrees, traced_pre. intros H.
  pose proof (pre_flag c (fst s)) as F.
  destruct (pre id c (fst s)) as [a st]; cbn [fst snd] in *.
  rewrite replay_app, H. cbn [replay]. now rewrite F.
Qed.

Lemma traced_post_agrees (c : Cursor) (s : Traced) :
  agrees s -> agrees (snd (traced_post c s)).
Proof.
  unfold agrees, traced_post, post. intros H.
  destruct (deleteMe (fst s) && (0 <=? Index c))%bool eqn:D;
    cbn [fst snd]; rewrite replay_app, H; cbn [replay]; rewrite D; cbn.
  - now rewrite andb_false_r.
  - now rewrite andb_true_r.
Qed.

Lemma trace_agrees (root : Stmt) :
  agrees (snd (Apply (traced_pre id) traced_post root (initState, []))).
Proof.
  assert (A : rel (fun s t : Traced => s = t /\ agrees s)
                (Apply (traced_pre id) traced_post root (initState, []))
                (Apply (traced_pre id) traced_post root (initState, []))).
  { apply Apply_rel.
    - intros c s ? [<- H]. repeat split. now apply traced_pre_agrees.
    - intros c s ? [<- H]. repeat split. now apply traced_post_agrees.
    - now split. }
  apply A.
Qed.

End TraceFacts.

(** ** The flag at the end of a statement list *)

Section Flag.

Variable id : Ident.

Lemma post_clean (c : Cursor) (st : State) :
  deleteMe st = false -> post c st = (false, mkState (depth st - 1) false).
Proof. intros H. unfold post. now rewrite H. Qed.

Lemma post_flag_in_list (c : Cursor) (st : State) :
  0 <= Index c -> deleteMe (snd (post c st)) = false.
Proof.
  intros H. unfold post. apply Z.leb_le in H. rewrite H, andb_true_r.
  now destruct (deleteMe st) eqn:D.
Qed.

Lemma post_flag_clean (c : Cursor) (st : State) :
  deleteMe st = false -> deleteMe (snd (post c st)) = false.
Proof. intros H. now rewrite post_clean. Qed.

(** A statement is never pruned, so its second callback runs; in a slice
    that leaves the flag down. *)
Lemma apply_stmt_flag (s : Stmt) (idx : Z) (st : State) :
  0 <= idx -> deleteMe (snd (apply_stmt (pre id) post idx s st)) = false.
Proof.
  intros H.
  destruct s; cbn [apply_stmt]; rewrite pre_stmt;
    match goal with
    | |- context [is_hoistable id ?s] => destruct (is_hoistable id s)
    end;
    repeat first
      [ match goal with
        | |- context [post (mkCursor ?n idx) ?st] =>
            pose proof (post_flag_in_list (mkCursor n idx) st H);
            destruct (post (mkCursor n idx) st) as [[|] ?]
        end
      | match goal with
        | |- context [let '(_, _) := ?m in _] => destruct m
        end ];
    assumption.
Qed.

Lemma applyList_stmt_flag (l : list Stmt) (idx : Z) (st : State) :
  0 <= idx -> deleteMe st = false ->
  deleteMe (snd (applyList (apply_stmt (pre id) post) idx l st)) = false.
Proof.
  revert idx st; induction l as [|s l IH]; intros idx st H C;
    cbn [applyList]; [exact C|].
  pose proof (apply_stmt_flag s idx st H) as F.
  destruct (apply_stmt (pre id) post idx s st) as [[s'|] st'];
    cbn [snd] in F.
  - specialize (IH (idx + 1) st' ltac:(lia) F).
    now destruct (applyList _ (idx + 1) l st').
  - now apply IH.
Qed.

Lemma finalState_flag (body : list Stmt) :
  deleteMe (finalState id (BlockStmt body)) = false.
Proof.
  unfold finalState, Apply, single. cbn [apply_stmt].
  rewrite pre_stmt. cbn [is_hoistable].
  pose proof (applyList_stmt_flag body 0 (incDepth initState)
                ltac:(lia) eq_refl) as F.
  destruct (applyList _ 0 body _) as [l st]. cbn [snd] in F.
  rewrite (post_clean _ st F). reflexivity.
Qed.

End Flag.

(** ** Bodies of the class [supported] come out without occurrences *)

Section Supported.

Variable id : Ident.

Abbreviation clean_state st := (deleteMe st = false).
Abbreviation walk_expr := (apply_expr (pre id) post).
Abbreviation walk_stmt := (apply_stmt (pre id) post).

Lemma apply_expr_harness_call (e : Expr) (idx : Z) (st : State) :
  is_harness_call id e = true ->
  walk_expr idx e st = (Some e, mkState (depth st) true).
Proof.
  destruct e; try discriminate. intros H.
  cbn [apply_expr]. now rewrite pre_expr, H.
Qed.

Lemma single_expr_clean (x : Expr) (st : State) :
  expr_mentions id x = false -> clean_state st ->
  single walk_expr x st = (x, st).
Proof.
  intros M H. apply single_fixes; auto.
  apply apply_expr_clean. now apply expr_triggers_mentions.
Qed.

Lemma single_expr_untriggered (x : Expr) (st : State) :
  expr_triggers id x = false -> clean_state st ->
  single walk_expr x st = (x, st).
Proof.
  intros M H. apply single_fixes; auto. now apply apply_expr_clean.
Qed.

Lemma optional_expr_clean (o : option Expr) (st : State) :
  opt_mentions (expr_mentions id) o = false -> clean_state st ->
  optional (pre id) post walk_expr o st = (o, st).
Proof.
  intros M H. destruct o as [x|]; cbn [optional opt_mentions] in *.
  - now rewrite single_expr_clean.
  - now rewrite visit_nil_clean.
Qed.

Lemma optional_stmt_clean (o : option Stmt) (st : State) :
  opt_mentions (stmt_mentions id) o = false -> clean_state st ->
  optional (pre id) post walk_stmt o st = (o, st).
Proof.
  intros M H. destruct o as [x|]; cbn [optional opt_mentions] in *.
  - rewrite single_fixes; auto.
    apply apply_stmt_clean. now apply stmt_triggers_mentions.
  - now rewrite visit_nil_clean.
Qed.

Lemma applyList_expr_clean (l : list Expr) (idx : Z) (st : State) :
  existsb (expr_mentions id) l = false -> clean_state st ->
  applyList walk_expr idx l st = (l, st).
Proof.
  intros M H.
  apply (applyList_fixes _ _ (expr_triggers id)); auto.
  - apply list_all_of_forall. intros x. apply apply_expr_clean.
  - revert M. apply existsb_false_mono.
    apply list_all_of_forall. intros x. apply expr_triggers_mentions.
Qed.

Lemma optional_expr_untriggered (o : option Expr) (st : State) :
  opt_mentions (expr_triggers id) o = false -> clean_state st ->
  optional (pre id) post walk_expr o st = (o, st).
Proof.
  intros M H. destruct o as [x|]; cbn [optional opt_mentions] in *.
  - now rewrite single_expr_untriggered.
  - now rewrite visit_nil_clean.
Qed.

(** The shape of the condition the second rule asks for. *)
Lemma is_hoistable_cond (init : option Stmt) (cond : option Expr)
    (p : option Stmt) (body : list Stmt) :
  is_hoistable id (ForStmt init cond p body) = true ->
  exists x op ident sl,
    cond = Some (BinaryExpr x op (SelectorExpr (IdentExpr ident) sl))
    /\ Token_eqb op LSS = true /\ sameObj id ident = true.
Proof.
  destruct cond as [[ | | | | | | | | | | |x op y| | | ]|]; try discriminate.
  destruct y as [ | | | |z sl| | | | | | | | | | ]; try discriminate.
  destruct z; try discriminate.
  cbn [is_hoistable]. intros H. apply andb_true_iff in H as [H1 H2].
  now exists x, op, id0, sl.
Qed.

Lemma applyList_ok (l : list Stmt) :
  @list_all Stmt (stmt_ok id) l ->
  forallb (supported id true) l = true ->
  forall idx st, 0 <= idx -> clean_state st ->
  existsb (stmt_mentions id) (fst (applyList walk_stmt idx l st)) = false
  /\ deleteMe (snd (applyList walk_stmt idx l st)) = false.
Proof.
  induction 1 as [|s F r _ IH]; cbn [forallb applyList];
    intros S idx st Hidx Hst.
  - now split.
  - apply andb_true_iff in S as [Ss Sr].
    destruct (F true idx st Ss (fun _ => Hidx) Hst) as [Fl Fm].
    destruct (walk_stmt idx s st) as [[s'|] st']; cbn [fst snd] in Fl, Fm.
    + destruct (IH Sr (idx + 1) st' ltac:(lia) Fl) as [Im Il].
      destruct (applyList walk_stmt (idx + 1) r st') as [r' st''].
      cbn [fst snd existsb] in *. now rewrite Fm, Im.
    + now apply IH.
Qed.

Lemma block_ok (body : list Stmt) (st : State) :
  @list_all Stmt (stmt_ok id) body ->
  forallb (supported id true) body = true ->
  clean_state st ->
  existsb (stmt_mentions id)
    (fst (block (pre id) post walk_stmt body st)) = false
  /\ deleteMe (snd (block (pre id) post walk_stmt body st)) = false.
Proof.
  intros F S Hst. unfold block. rewrite pre_stmt. cbn [is_hoistable].
  destruct (applyList_ok body F S 0 (incDepth st) ltac:(lia) Hst) as [M L].
  destruct (applyList walk_stmt 0 body (incDepth st)) as [b' st'].
  cbn [fst snd] in M, L. rewrite (post_clean _ st' L). now split.
Qed.

Lemma single_ok (s : Stmt) (st : State) :
  stmt_ok id s -> supported id false s = true -> clean_state st ->
  stmt_mentions id (fst (single walk_stmt s st)) = false
  /\ deleteMe (snd (single walk_stmt s st)) = false.
Proof.
  intros F S Hst. unfold single.
  destruct (F false (-1) st S ltac:(discriminate) Hst) as [L M].
  destruct (walk_stmt (-1) s st) as [[s'|] st']; cbn [fst snd] in *.
  - now split.
  - lia.
Qed.

Lemma optional_ok (o : option Stmt) (st : State) :
  @option_all Stmt (stmt_ok id) o ->
  match o with Some e => supported id false e | None => true end = true ->
  clean_state st ->
  opt_mentions (stmt_mentions id)
    (fst (optional (pre id) post walk_stmt o st)) = false
  /\ deleteMe (snd (optional (pre id) post walk_stmt o st)) = false.
Proof.
  intros [s F|] S Hst; cbn [optional].
  - destruct (single_ok s st F S Hst) as [M L].
    destruct (single walk_stmt s st) as [s' st']. now split.
  - rewrite visit_nil_clean by exact Hst. now split.
Qed.

Ltac split_andb :=
  repeat match goal with
         | H : (_ && _)%bool = true |- _ =>
             apply andb_true_iff in H; destruct H
         | H : negb _ = true |- _ => apply negb_true_iff in H
         end.

Ltac flag_down := first [assumption | cbn; assumption].

Ltac walk_ok :=
  repeat first
    [ rewrite single_expr_clean by flag_down
    | rewrite optional_expr_clean by flag_down
    | rewrite optional_stmt_clean by flag_down
    | rewrite applyList_expr_clean by flag_down
    | rewrite ident_leaf_clean by flag_down
    | match goal with
      | |- context [block (pre id) post walk_stmt ?b ?st] =>
          let M := fresh "M" in
          let L := fresh "L" in
          destruct (block_ok b st ltac:(assumption) ltac:(assumption)
                      ltac:(flag_down)) as [M L];
          destruct (block (pre id) post walk_stmt b st);
          cbn [fst snd] in M, L
      | |- context [applyList walk_stmt 0 ?b ?st] =>
          let M := fresh "M" in
          let L := fresh "L" in
          destruct (applyList_ok b ltac:(assumption) ltac:(assumption)
                      0 st ltac:(lia) ltac:(flag_down)) as [M L];
          destruct (applyList walk_stmt 0 b st);
          cbn [fst snd] in M, L
      | |- context [single walk_stmt ?b ?st] =>
          let M := fresh "M" in
          let L := fresh "L" in
          destruct (single_ok b st ltac:(assumption) ltac:(assumption)
                      ltac:(flag_down)) as [M L];
          destruct (single walk_stmt b st);
          cbn [fst snd] in M, L
      | |- context [optional (pre id) post walk_stmt ?b ?st] =>
          let M := fresh "M" in
          let L := fresh "L" in
          destruct (optional_ok b st ltac:(assumption) ltac:(assumption)
                      ltac:(flag_down)) as [M L];
          destruct (optional (pre id) post walk_stmt b st);
          cbn [fst snd] in M, L
      end ].

Ltac conclude_ok :=
  cbv zeta; rewrite post_clean by flag_down;
  split; [reflexivity|];
  cbn [fst stmt_mentions body_block];
  repeat match goal with
         | H : _ = false |- _ => rewrite H; clear H
         end;
  reflexivity.

Lemma apply_stmt_supported (s : Stmt) : stmt_ok id s.
Proof.
  induction s; intros in_list idx st Hs Hidx Hst;
    match goal with
    | |- good _ _ (walk_stmt _ ?s _) => destruct (stmt_mentions id s) eqn:M
    end;
    try (rewrite (apply_stmt_clean id _ (stmt_triggers_mentions id _ M)
                    idx st Hst);
         split; [exact Hst | exact M]);
    cbn [supported] in Hs; rewrite M in Hs; cbn [negb orb] in Hs;
    try discriminate Hs; clear M.
  - (* a labelled statement *)
    split_andb. cbn [apply_stmt]. rewrite pre_stmt. cbn [is_hoistable].
    walk_ok. conclude_ok.
  - (* a harness call as a statement *)
    split_andb. subst in_list. specialize (Hidx eq_refl).
    cbn [apply_stmt]. rewrite pre_stmt. cbn [is_hoistable].
    unfold single. rewrite apply_expr_harness_call by assumption.
    unfold post. cbn [deleteMe Index andb].
    apply Z.leb_le in Hidx. rewrite Hidx. apply Z.leb_le in Hidx.
    now split.
  - (* a block *)
    cbn [apply_stmt]. rewrite pre_stmt. cbn [is_hoistable].
    walk_ok. conclude_ok.
  - (* if *)
    split_andb. cbn [apply_stmt]. rewrite pre_stmt. cbn [is_hoistable].
    walk_ok. conclude_ok.
  - (* a case clause *)
    split_andb. cbn [apply_stmt]. rewrite pre_stmt. cbn [is_hoistable].
    walk_ok. conclude_ok.
  - (* switch *)
    split_andb. cbn [apply_stmt]. rewrite pre_stmt. cbn [is_hoistable].
    walk_ok. conclude_ok.
  - (* for *)
    split_andb.
    match goal with
    | H : (_ || _)%bool = true |- _ => apply orb_true_iff in H as [C|C]
    end; split_andb.
    + (* the condition has no occurrence: the rule is not taken *)
      match goal with
      | |- good _ _ (walk_stmt _ ?loop _) =>
          assert (N : is_hoistable id loop = false)
      end.
      { match goal with
        | |- ?h = false => destruct h eqn:N; [|reflexivity]
        end.
        apply is_hoistable_cond in N as (x & op & i & sl & -> & _ & N).
        cbn [opt_mentions expr_mentions] in C. rewrite N in C.
        now rewrite orb_true_r in C. }
      cbn [apply_stmt]. rewrite pre_stmt, N.
      walk_ok. conclude_ok.
    + (* the rule is taken: the block of the body stands for the loop *)
      match goal with
      | H : is_hoistable id _ = true |- _ =>
          cbn [apply_stmt]; rewrite pre_stmt, H;
          apply is_hoistable_cond in H as (x & op & i & sl & -> & _ & _)
      end.
      split_andb.
      rewrite optional_stmt_clean by flag_down.
      rewrite optional_expr_untriggered; [|cbn [opt_mentions expr_triggers is_harness_call orb]|flag_down].
      2:{ rewrite expr_triggers_mentions by assumption. reflexivity. }
      walk_ok. conclude_ok.
  - (* range *)
    split_andb. cbn [apply_stmt]. rewrite pre_stmt. cbn [is_hoistable].
    walk_ok. conclude_ok.
Qed.

End Supported.

(** ** The reference transformer: the statements of the specification *)

Import Samples.

Lemma applyList_app (S A : Type) (f : Z -> A -> S -> option A * S)
    (l1 l2 : list A) (idx : Z) (st : S) :
  applyList f idx (l1 ++ l2) st =
  let '(l1', st1) := applyList f idx l1 st in
  let '(l2', st2) := applyList f (idx + Z.of_nat (List.length l1')) l2 st1 in
  (l1' ++ l2', st2).
Proof.
  revert idx st; induction l1 as [|x l1 IH]; intros idx st;
    cbn [applyList app].
  - rewrite Z.add_0_r. now destruct (applyList f idx l2 st).
  - destruct (f idx x st) as [[x'|] st1].
    + rewrite IH. destruct (applyList f (idx + 1) l1 st1) as [l1' st2].
      cbn [List.length]. rewrite Nat2Z.inj_succ.
      replace (idx + Z.succ (Z.of_nat (List.length l1')))
        with (idx + 1 + Z.of_nat (List.length l1')) by lia.
      now destruct (applyList f _ l2 st2).
    + now rewrite IH.
Qed.

Lemma applyList_stmt_untriggered (id : Ident) (l : list Stmt) (idx : Z)
    (st : State) :
  existsb (stmt_triggers id) l = false -> deleteMe st = false ->
  applyList (apply_stmt (pre id) post) idx l st = (l, st).
Proof.
  intros M H.
  apply (applyList_fixes _ _ (stmt_triggers id)); auto.
  apply list_all_of_forall. intros x. apply apply_stmt_clean.
Qed.

(** C1, as amended.  When every occurrence of the harness object lies in a
    harness call that is a statement of its own in a statement list, or in
    the bound [_ < h._] of a [for] statement whose header has no other
    occurrence, the body the transformer returns has no occurrence left. *)
Theorem supported_body_cleared (id : Ident) (body : list Stmt) :
  forallb (supported id true) body = true ->
  stmt_mentions id (removeReferencesToIdentifier id (BlockStmt body)) = false.
Proof.
  intros S.
  assert (B : supported id false (BlockStmt body) = true).
  { cbn [supported]. rewrite S. apply orb_true_r. }
  destruct (apply_stmt_supported id (BlockStmt body) false (-1) initState B
              ltac:(discriminate) eq_refl) as [_ M].
  unfold removeReferencesToIdentifier, Apply, single.
  destruct (apply_stmt (pre id) post (-1) (BlockStmt body) initState)
    as [[s'|] st']; cbn [fst] in *.
  - exact M.
  - lia.
Qed.

Lemma supported_body_cleared_witness :
  forallb (supported h true) (timers ++ plainLoop ++ timedLoop) = true
  /\ stmt_mentions h
       (removeReferencesToIdentifier h
          (BlockStmt (timers ++ plainLoop ++ timedLoop))) = false.
Proof.
  split; [reflexivity|].
  apply (supported_body_cleared h (timers ++ plainLoop ++ timedLoop)).
  reflexivity.
Defined.

(** C1, as stated, fails on [if h.Failed() { x() }]: the one occurrence is
    the base of the callee of a call, and the body returned is
    [if h.Failed() { }], which still holds it. *)
Lemma guarded_call_keeps_reference :
  removeReferencesToIdentifier h (BlockStmt guarded)
    = BlockStmt [IfStmt None (harnessCall "Failed") [] None]
  /\ stmt_mentions h (removeReferencesToIdentifier h (BlockStmt guarded))
     = true.
Proof. split; reflexivity. Qed.

(** C2, as amended.  In every traversal of a function body, the second
    callback deletes the node under the cursor exactly when the flag is up
    and the node is an element of a slice of its parent, whatever the slice
    and whether or not the node encloses the call that raised the flag, and
    deleting takes the flag down; the flag is down when the traversal
    ends. *)
Theorem signal_consumed_by_next_slice_element (id : Ident)
    (body : list Stmt) :
  replay false (trace id (BlockStmt body)) = Some false
  /\ deleteMe (finalState id (BlockStmt body)) = false.
Proof.
  pose proof (trace_agrees id (BlockStmt body)) as A.
  pose proof (traced_Apply id (BlockStmt body)) as [_ E].
  pose proof (finalState_flag id body) as F.
  unfold agrees in A. rewrite E, F in A. now split.
Qed.

(** C2, as stated, fails on [foo(h.Bar(), y)]: the flag raised at [h.Bar()]
    is taken down at the argument [y], which is no statement and does not
    enclose the call; [y] is deleted and the statement around the call
    stays. *)
Lemma signal_consumed_by_sibling_argument :
  raises (trace h (BlockStmt nestedArg)) = [NExpr (harnessCall "Bar")]
  /\ deletions (trace h (BlockStmt nestedArg)) = [mkCursor (NExpr (ref "y")) 1]
  /\ removeReferencesToIdentifier h (BlockStmt nestedArg)
     = BlockStmt [callStmt (ref "foo") [harnessCall "Bar"]].
Proof. repeat split; reflexivity. Qed.



(** Why the list must be entered with the flag down: in
    [if h.Failed() { for i < h.N { work() } }] the flag raised in the
    condition of the [if] is still up when the loop is reached, and it is
    [work()] in the body of the loop that goes. *)
Example pending_flag_reaches_hoisted_body :
  removeReferencesToIdentifier h
    (BlockStmt
       [IfStmt None (harnessCall "Failed")
          [ForStmt None
             (Some (BinaryExpr (IdentExpr i) LSS (sel (IdentExpr h) "N")))
             None [callStmt (ref "work") []]]
          None])
  = BlockStmt [IfStmt None (harnessCall "Failed") [BlockStmt []] None].
Proof. reflexivity. Qed.


(** C7.  A body without an occurrence of the harness object is returned as
    it is. *)
Theorem transformer_noop (id : Ident) (body : list Stmt) :
  existsb (stmt_mentions id) body = false ->
  removeReferencesToIdentifier id (BlockStmt body) = BlockStmt body.
Proof.
  intros M.
  unfold removeReferencesToIdentifier, Apply.
  rewrite single_fixes; auto.
  apply apply_stmt_clean. apply stmt_triggers_mentions. exact M.
Qed.

Lemma transformer_noop_witness :
  existsb (stmt_mentions h) [callStmt (ref "compute") []; accumulate]
    = false
  /\ removeReferencesToIdentifier h
       (BlockStmt [callStmt (ref "compute") []; accumulate])
     = BlockStmt [callStmt (ref "compute") []; accumulate].
Proof.
  split; [reflexivity|].
  apply (transformer_noop h [callStmt (ref "compute") []; accumulate]).
  reflexivity.
Defined.

(** The benchmark of the example package: the call of [h.SetBytes] goes,
    and the loop gives way to its body as one block. *)
Example example_benchmark_rewritten :
  removeReferencesToIdentifier h (BlockStmt exampleBody)
    = BlockStmt [exampleData; BlockStmt exampleInner]
  /\ forallb (supported h true) exampleBody = true.
Proof. split; reflexivity. Qed.

(** The scenario of the specification: [for i := 0; i < h.N; i++
    { total += x }] as the body of [Benchmark_X(h)] comes out as the block
    [{ total += x }] inside the body, with no parameter and the directive. *)
Example scenario_loop_only :
  editDecl (mkFuncDecl None None (mkIdent "Benchmark_X" None) namedParam
              None (Some [benchLoop [accumulate]]))
  = Ok (mkFuncDecl (Some [noinline]) None (mkIdent "Benchmark_X" None) []
          None (Some [BlockStmt [accumulate]])).
Proof. reflexivity. Qed.

(** C8.  [h.StartTimer(); compute(); h.StopTimer()] becomes [compute()]. *)
Theorem timers_removed :
  removeReferencesToIdentifier h (BlockStmt timers)
    = BlockStmt [callStmt (ref "compute") []].
Proof. reflexivity. Qed.

(** ** The declaration edit *)

(** The root block is never replaced nor deleted: the traversal of a block
    returns a block. *)
Lemma root_block (id : Ident) (l : list Stmt) :
  exists l', removeReferencesToIdentifier id (BlockStmt l) = BlockStmt l'.
Proof.
  unfold removeReferencesToIdentifier, Apply, single.
  cbn [apply_stmt]. rewrite pre_stmt. cbn [is_hoistable].
  destruct (applyList (apply_stmt (pre id) post) 0 l (incDepth initState))
    as [l' st].
  exists l'. unfold post. cbn [Index]. rewrite andb_false_r. reflexivity.
Qed.

(** [NumFields] is one for a single field with at most one name only. *)
Lemma fieldCount_grows (l : list Field) (n : nat) :
  (n + List.length l <= fold_left fieldCount l n)%nat.
Proof.
  revert n; induction l as [|g r IH]; intros n;
    cbn [fold_left List.length]; [lia|].
  specialize (IH (fieldCount n g)). unfold fieldCount in IH at 1.
  destruct (Nat.eqb (List.length (Names g)) 0) eqn:E; [lia|].
  apply Nat.eqb_neq in E. lia.
Qed.

Lemma NumFields_one (l : list Field) :
  NumFields l = 1%nat ->
  exists ty, l = [mkField [] ty] \/ exists n, l = [mkField [n] ty].
Proof.
  change (NumFields l) with (fold_left fieldCount l 0%nat).
  destruct l as [|[names ty] r]; cbn [fold_left]; [discriminate|].
  intros H. exists ty.
  pose proof (fieldCount_grows r (fieldCount 0 (mkField names ty))) as G.
  rewrite H in G. unfold fieldCount in G, H. cbn [Names] in G, H.
  destruct names as [|n [|n' names]]; cbn [List.length Nat.eqb] in G, H.
  - left. destruct r; [reflexivity|cbn [List.length] in G; lia].
  - right. exists n. destruct r; [reflexivity|cbn [List.length] in G; lia].
  - lia.
Qed.

(** For a declaration whose one parameter is named, the edit empties the
    parameter list, keeps the name, and appends the directive to the comment
    group, the only element of it when there was none. *)
Theorem editDecl_named_parameter (d : FuncDecl) :
  NumFields (Params d) = 1%nat ->
  (forall f, In f (Params d) -> Names f <> []) ->
  exists d',
    editDecl d = Ok d'
    /\ Params d' = []
    /\ FuncName d' = FuncName d
    /\ Doc d' = Some (match Doc d with Some l => l | None => [] end
                      ++ [noinline])
    /\ (Doc d = None -> Doc d' = Some [noinline]).
Proof.
  intros N H.
  destruct (NumFields_one _ N) as [ty [E|[n E]]].
  - exfalso. apply (H (mkField [] ty)); [rewrite E; now left|reflexivity].
  - unfold editDecl. rewrite E. cbn [Names].
    destruct (Body d) as [l|].
    + destruct (root_block n l) as [l' ->].
      eexists. repeat split. cbn [Doc]. now intros ->.
    + eexists. repeat split. cbn [Doc]. now intros ->.
Qed.

Lemma editDecl_named_parameter_witness :
  NumFields (Params (benchDecl (Some ["// BenchmarkMe times compute."])
                                namedParam)) = 1%nat
  /\ exists d',
       editDecl (benchDecl (Some ["// BenchmarkMe times compute."])
                           namedParam) = Ok d'
       /\ Params d' = []
       /\ Doc d' = Some ["// BenchmarkMe times compute."; noinline].
Proof.
  split; [reflexivity|].
  destruct (editDecl_named_parameter
              (benchDecl (Some ["// BenchmarkMe times compute."]) namedParam))
    as (d' & E & P & _ & D & _).
  - reflexivity.
  - intros f [<-|[]]. discriminate.
  - exists d'. repeat split; assumption.
Defined.

(** The files are parsed without their comments, so a declaration comes
    without comment group: then, with one named parameter, the directive is
    the first element of the group the edit makes, and its only one. *)
Lemma editDecl_parsed_named (d : FuncDecl) (n : Ident) (ty : Expr) :
  Doc d = None ->
  Params d = [mkField [n] ty] ->
  exists b,
    editDecl d
    = Ok (mkFuncDecl (Some [noinline]) (Recv d) (FuncName d) [] (Results d)
            b).
Proof.
  intros Hd Hp. unfold editDecl. rewrite Hp, Hd. cbn [Names app].
  destruct (Body d) as [l|].
  - destruct (root_block n l) as [l' ->]. now eexists.
  - now eexists.
Qed.

(** C4 fails on a declaration whose one parameter has no name, as in a
    function that takes the harness without naming it: [NumFields] counts
    the field as one parameter, and the edit panics on [Names[0]], so the
    parameter is not removed and no directive is added.  With the parameter
    named the edit does what the claim says: no parameter is left and the
    directive is the first element of the comment group. *)
Theorem unnamed_parameter_breaks_edit :
  NumFields anonymousParam = 1%nat
  /\ editDecl (benchDecl None anonymousParam)
     = Panic "index out of range [0] with length 0"
  /\ editDecl (benchDecl None namedParam)
     = Ok (mkFuncDecl (Some [noinline]) None (mkIdent "BenchmarkMe" None) []
             None (Some [callStmt (ref "compute") []])).
Proof. repeat split. Qed.

(** ** Effects of the steps *)

Section StepEffects.

Variable env : Env.

Lemma all_bind (A B : Type) (P : Effect -> bool) (m : IO A)
    (k : A -> IO B) :
  all_effects P m ->
  (forall a, snd m = Ok a -> all_effects P (k a)) ->
  all_effects P (bind m k).
Proof.
  unfold all_effects, bind. destruct m as [t [a|c|msg]]; cbn [fst snd].
  - intros Hm Hk. specialize (Hk a eq_refl).
    destruct (k a) as [t' r]. cbn [fst] in *. apply Forall_app. now split.
  - auto.
  - auto.
Qed.

Lemma all_ret (A : Type) (P : Effect -> bool) (a : A) :
  all_effects P (ret a).
Proof. constructor. Qed.

Lemma all_println (P : Effect -> bool) (f : string) (a : list string) :
  P (Stdout (mkMessage f a)) = false -> all_effects P (println f a).
Proof. intros H. repeat constructor. exact H. Qed.

Lemma all_die (A : Type) (P : Effect -> bool) (f : string)
    (a : list string) :
  P (Stderr (mkMessage f a)) = false -> all_effects P (@die A f a).
Proof. intros H. repeat constructor. exact H. Qed.

Lemma findInFiles_quiet (pkg : Package) (re : Regexp) (files : list string) :
  all_effects touches_files (findInFiles env pkg re files).
Proof.
  induction files as [|x r IH]; cbn [findInFiles].
  - apply all_ret.
  - destruct (parser_ParseFile env _).
    + apply all_bind; [exact IH|]. intros; apply all_ret.
    + apply all_bind; [now apply all_println|]. intros; exact IH.
Qed.

(** Up to the selection the program has written messages only. *)
Lemma selectFunc_quiet : all_effects touches_files (selectFunc env).
Proof.
  unfold selectFunc.
  destruct (os_Getwd env); [|now apply all_die].
  apply all_bind.
  { destruct (String.eqb (pathFlag env) ""); repeat constructor. }
  intros _ _. apply all_bind.
  { destruct (String.eqb (nameFlag env) ""); repeat constructor. }
  intros _ _.
  destruct (regexp_Compile env _); [|constructor].
  destruct (build_Import env _ _); [|now apply all_die].
  apply all_bind; [apply findInFiles_quiet|].
  intros found _. destruct found as [|first more]; [now apply all_die|].
  apply all_bind.
  { unfold all_effects. cbn [fst]. apply Forall_forall.
    intros e He. apply in_map_iff in He as [x [<- _]]. reflexivity. }
  intros _ _. destruct more; [apply all_ret|now apply all_die].
Qed.

Lemma forEach_all (A : Type) (P : Effect -> bool)
    (f : A -> IO (option error)) (l : list A) :
  (forall x, all_effects P (f x)) -> all_effects P (forEach f l).
Proof.
  intros H. induction l as [|x r IH]; cbn [forEach].
  - apply all_ret.
  - apply all_bind; [apply H|]. intros [err|] _; [apply all_ret|exact IH].
Qed.

Lemma copyModuleToTmp_gentle (fromPath toPath : string) :
  all_effects modifies_file (copyModuleToTmp env fromPath toPath).
Proof.
  unfold copyModuleToTmp. apply all_bind; [now apply all_println|].
  intros _ _. destruct (os_ReadDir env fromPath); [|apply all_ret].
  apply forEach_all. intros x. unfold copyOne.
  destruct (IsDir x || _)%bool; [apply all_ret|].
  apply all_bind.
  - unfold copyFile.
    destruct (os_Open env _); [apply all_ret|].
    destruct (os_Create env _); [apply all_ret|].
    destruct (io_Copy env _ _); repeat constructor.
  - intros [err|] _; [apply all_ret|]. repeat constructor.
Qed.

(** The scratch directory and the copies are made anew: no file that was
    there is changed. *)
Lemma prepare_gentle (sel : Selected) :
  all_effects modifies_file (prepare env sel).
Proof.
  unfold prepare.
  destruct (os_MkdirTemp env); [|now apply all_die].
  apply all_bind; [repeat constructor|]. intros _ _.
  apply all_bind; [repeat constructor|]. intros _ _.
  destruct (os_Mkdir env _); [now apply all_die|].
  apply all_bind; [repeat constructor|]. intros _ _.
  apply all_bind; [apply copyModuleToTmp_gentle|].
  intros [err|] _; [now apply all_die|].
  destruct (filepath_Rel env _ _); [apply all_ret|now apply all_die].
Qed.

Lemma touches_not_modifies (A : Type) (m : IO A) :
  all_effects touches_files m -> all_effects modifies_file m.
Proof.
  unfold all_effects. apply Forall_impl. now intros [].
Qed.

End StepEffects.

(** ** Selection, shape check and renaming *)

Section Steps.

Variable env : Env.

Lemma bind_Ok (A B : Type) (m : IO A) (k : A -> IO B) (a : A) :
  snd m = Ok a -> snd (bind m k) = snd (k a).
Proof.
  destruct m as [t r]; cbn [snd]; intros ->. unfold bind.
  now destruct (k a).
Qed.

Lemma bind_Exit (A B : Type) (m : IO A) (k : A -> IO B) (c : Z) :
  snd m = Exit c -> snd (bind m k) = Exit c.
Proof. destruct m as [t r]; cbn [snd]; now intros ->. Qed.

Lemma withDefer_Exit (A : Type) (deferred : list Effect) (m : IO A)
    (c : Z) :
  snd m = Exit c -> withDefer deferred m = m.
Proof. destruct m as [t r]; cbn [snd]; now intros ->. Qed.

(** The declarations selected in the files given, whatever the files. *)
Lemma findInFiles_spec (pkg : Package) (re : Regexp) (files : list string) :
  exists found,
    snd (findInFiles env pkg re files) = Ok found
    /\ forall loc,
         In loc found <->
         In (file loc) files
         /\ exists f fd,
              parser_ParseFile env (path_Join env (Dir pkg) (file loc))
                = inl f
              /\ In (DFunc fd) (Decls f)
              /\ Name (FuncName fd) = name loc
              /\ Strings.HasPrefix (name loc) "Benchmark" = true
              /\ re (name loc) = true.
Proof.
  induction files as [|x r (found & E & IH)]; cbn [findInFiles].
  - exists []. split; [reflexivity|]. intros loc. split; [intros []|].
    now intros [[] _].
  - destruct (parser_ParseFile env (path_Join env (Dir pkg) x)) as [f|err]
      eqn:P.
    + exists (benchmarksOf re x (Decls f) ++ found). split.
      * rewrite (bind_Ok _ _ _ _ _ E). reflexivity.
      * intros loc. rewrite in_app_iff, IH. unfold benchmarksOf.
        rewrite in_flat_map. split.
        -- intros [(d & Hd & Hl)|(Hf & Hr)].
           ++ destruct d as [fd|]; [|destruct Hl].
              destruct (Strings.HasPrefix (Name (FuncName fd)) "Benchmark")
                eqn:HP; [|destruct Hl].
              destruct (re (Name (FuncName fd))) eqn:HR; [|destruct Hl].
              destruct Hl as [<-|[]]. cbn [file name].
              split; [now left|]. exists f, fd. now repeat split.
           ++ split; [now right|exact Hr].
        -- intros [[->|Hf] (f' & fd & P' & Hd & Hn & HP & HR)].
           ++ left. rewrite P in P'. injection P' as <-.
              exists (DFunc fd). split; [exact Hd|].
              rewrite Hn, HP, HR. destruct loc; now left.
           ++ right. split; [exact Hf|]. now exists f', fd.
    + exists found. split.
      * rewrite (bind_Ok _ _ (println _ _) _ tt eq_refl). exact E.
      * intros loc. rewrite IH. split.
        -- intros [Hf Hr]. split; [now right|exact Hr].
        -- intros [[->|Hf] Hr]; [|now split].
           destruct Hr as (f' & fd & P' & _). rewrite P in P'. discriminate.
Qed.

(** What [selectFunc] comes to once the flags, the pattern and the import
    are in order. *)
Lemma selectFunc_found (cwd_ : string) (re : Regexp) (pkg_ : Package)
    (found : list fnLoc) :
  os_Getwd env = inl cwd_ ->
  pathFlag env <> "" ->
  nameFlag env <> "" ->
  regexp_Compile env (".*" ++ nameFlag env ++ ".*")%string = Some re ->
  build_Import env (pathFlag env) cwd_ = inl pkg_ ->
  snd (findBenchmarkFuncs env pkg_ re) = Ok found ->
  match found with
  | [loc] => exists bin, snd (selectFunc env)
                         = Ok (mkSelected cwd_ bin pkg_ loc)
  | _ => snd (selectFunc env) = Exit 1
  end.
Proof.
  intros Hwd Hp Hn Hre Himp Hfound. unfold selectFunc. rewrite Hwd.
  apply String.eqb_neq in Hp, Hn. rewrite Hp, Hn.
  rewrite (bind_Ok _ _ (ret tt) _ tt eq_refl).
  rewrite (bind_Ok _ _ (ret tt) _ tt eq_refl).
  rewrite Hre, Himp. rewrite (bind_Ok _ _ _ _ _ Hfound).
  destruct found as [|loc [|loc' more]].
  - reflexivity.
  - eexists. reflexivity.
  - reflexivity.
Qed.

(** C10.  In [main] the name flag is compiled as [.*] + flag + [.*], and a
    declaration is among those found exactly when it is a function
    declaration of a test file of the package that parses, its name begins
    with [Benchmark], and the compiled pattern matches the name; the
    function [main] goes on with is the only one found. *)
Theorem selection_by_wrapped_pattern (cwd_ : string) (pkg_ : Package)
    (re : Regexp) :
  os_Getwd env = inl cwd_ ->
  pathFlag env <> "" ->
  nameFlag env <> "" ->
  regexp_Compile env (".*" ++ nameFlag env ++ ".*")%string = Some re ->
  build_Import env (pathFlag env) cwd_ = inl pkg_ ->
  exists found,
    snd (findBenchmarkFuncs env pkg_ re) = Ok found
    /\ (forall loc,
          In loc found <->
          In (file loc) (TestGoFiles pkg_ ++ XTestGoFiles pkg_)
          /\ exists f fd,
               parser_ParseFile env (path_Join env (Dir pkg_) (file loc))
                 = inl f
               /\ In (DFunc fd) (Decls f)
               /\ Name (FuncName fd) = name loc
               /\ Strings.HasPrefix (name loc) "Benchmark" = true
               /\ re (name loc) = true)
    /\ (forall sel, snd (selectFunc env) = Ok sel ->
                    found = [benchFuncLoc sel]).
Proof.
  intros Hwd Hp Hn Hre Himp.
  destruct (findInFiles_spec pkg_ re (TestGoFiles pkg_ ++ XTestGoFiles pkg_))
    as (found & E & H).
  exists found. split; [exact E|]. split; [exact H|].
  intros sel Hsel.
  pose proof (selectFunc_found cwd_ re pkg_ found Hwd Hp Hn Hre Himp E) as S.
  destruct found as [|loc [|loc' more]].
  - rewrite S in Hsel. discriminate.
  - destruct S as [bin S]. rewrite S in Hsel. injection Hsel as <-.
    reflexivity.
  - rewrite S in Hsel. discriminate.
Qed.

(** C5.  When the selection is reached and does not find exactly one
    function, the run ends by [os.Exit(1)] and has had no effect on the file
    system; when it finds exactly one, the run goes on with it. *)
Theorem selection_rejects_before_files (cwd_ : string) (re : Regexp)
    (pkg_ : Package) (found : list fnLoc) :
  os_Getwd env = inl cwd_ ->
  pathFlag env <> "" ->
  nameFlag env <> "" ->
  regexp_Compile env (".*" ++ nameFlag env ++ ".*")%string = Some re ->
  build_Import env (pathFlag env) cwd_ = inl pkg_ ->
  snd (findBenchmarkFuncs env pkg_ re) = Ok found ->
  (List.length found <> 1%nat ->
   snd (main env) = Exit 1
   /\ Forall (fun e => touches_files e = false) (fst (main env)))
  /\ (forall loc, found = [loc] ->
      exists sel, snd (selectFunc env) = Ok sel /\ benchFuncLoc sel = loc).
Proof.
  intros Hwd Hp Hn Hre Himp Hfound.
  pose proof (selectFunc_found cwd_ re pkg_ found Hwd Hp Hn Hre Himp Hfound)
    as S.
  split.
  - intros L.
    assert (E : snd (selectFunc env) = Exit 1).
    { destruct found as [|loc [|loc' more]]; auto. now cbn in L. }
    pose proof (selectFunc_quiet env) as Q. unfold all_effects in Q.
    unfold main. destruct (selectFunc env) as [t r]; cbn [fst snd] in *.
    subst r. now split.
  - intros loc ->. destruct S as [bin S]. eexists. split; [exact S|].
    reflexivity.
Qed.

(** C6.  When the declaration found in the copy does not have exactly one
    parameter, the run ends by [os.Exit(1)]; the rewriting step has written
    its message only, and no effect of the run has changed a file that was
    there: the scratch directory and the copies are all there is. *)
Theorem shape_error_before_rewrite (sel : Selected) (dirs : string * string)
    (fileAst : File) (d : FuncDecl) :
  snd (selectFunc env) = Ok sel ->
  snd (prepare env sel) = Ok dirs ->
  parser_ParseFile env
    (path_Join env (snd dirs) (file (benchFuncLoc sel))) = inl fileAst ->
  findDecl (Decls fileAst) (name (benchFuncLoc sel)) = Some d ->
  NumFields (Params d) <> 1%nat ->
  snd (main env) = Exit 1
  /\ Forall (fun e => modifies_file e = false) (fst (main env))
  /\ rewriteBenchFuncInPlace env (snd dirs) (benchFuncLoc sel)
     = ([Stderr (mkMessage
                   "Function %s is expected to have exactly one parameter, but got %d"
                   [name (benchFuncLoc sel);
                    showNat (NumFields (Params d))])],
        Exit 1).
Proof.
  intros Hsel Hprep Hparse Hfind Hn.
  assert (R : rewriteBenchFuncInPlace env (snd dirs) (benchFuncLoc sel)
              = ([Stderr (mkMessage
                   "Function %s is expected to have exactly one parameter, but got %d"
                   [name (benchFuncLoc sel);
                    showNat (NumFields (Params d))])],
                 Exit 1)).
  { unfold rewriteBenchFuncInPlace. rewrite Hparse, Hfind.
    apply Nat.eqb_neq in Hn. rewrite Hn. reflexivity. }
  assert (X : snd (rewrite env sel (snd dirs) ;;;
                   build env sel (fst dirs) (snd dirs)) = Exit 1).
  { apply bind_Exit. unfold rewrite.
    rewrite (bind_Ok _ _ (println _ _) _ tt eq_refl).
    unfold orDie. apply bind_Exit. now rewrite R. }
  split; [|split; [|exact R]].
  - unfold main. rewrite (bind_Ok _ _ _ _ _ Hsel).
    rewrite (bind_Ok _ _ _ _ _ Hprep).
    now rewrite (withDefer_Exit _ _ _ _ X).
  - apply all_bind.
    + apply touches_not_modifies, selectFunc_quiet.
    + intros sel' Hsel'. rewrite Hsel in Hsel'. injection Hsel' as <-.
      apply all_bind; [apply prepare_gentle|].
      intros dirs' Hd'. rewrite Hprep in Hd'. injection Hd' as <-.
      rewrite (withDefer_Exit _ _ _ _ X).
      apply all_bind.
      * unfold rewrite. apply all_bind; [repeat constructor|].
        intros _ _. unfold orDie. rewrite R. repeat constructor.
      * intros u Hu. exfalso. unfold rewrite in Hu.
        rewrite (bind_Ok _ _ (println _ _) _ tt eq_refl) in Hu.
        unfold orDie in Hu. rewrite R in Hu. discriminate.
Qed.

End Steps.

Lemma selection_by_wrapped_pattern_witness :
  regexp_Compile twoBenchmarks ".*BenchmarkMe.*"
    = Some (contains "BenchmarkMe")
  /\ exists found,
       snd (findBenchmarkFuncs twoBenchmarks samplePkg
              (contains "BenchmarkMe")) = Ok found
       /\ In (mkFnLoc "x_test.go" "BenchmarkMe") found
       /\ In (mkFnLoc "x_test.go" "BenchmarkMeToo") found
       /\ ~ In (mkFnLoc "x_test.go" "TestMe") found.
Proof.
  split; [reflexivity|].
  destruct (selection_by_wrapped_pattern twoBenchmarks "/work" samplePkg
              (contains "BenchmarkMe") eq_refl ltac:(discriminate)
              ltac:(discriminate) eq_refl eq_refl)
    as (found & E & H & _).
  exists found. split; [exact E|]. repeat split.
  - apply H. split; [now left|].
    eexists; eexists; split; [reflexivity|].
    split; [left; reflexivity|]. now repeat split.
  - apply H. split; [now left|].
    eexists; eexists; split; [reflexivity|].
    split; [right; right; left; reflexivity|]. now repeat split.
  - intros I. apply H in I as (_ & f & fd & _ & _ & _ & P & _).
    discriminate P.
Defined.

Lemma selection_rejects_before_files_witness :
  List.length [mkFnLoc "x_test.go" "BenchmarkMe";
               mkFnLoc "x_test.go" "BenchmarkMeToo"] <> 1%nat
  /\ snd (main twoBenchmarks) = Exit 1
  /\ Forall (fun e => touches_files e = false) (fst (main twoBenchmarks)).
Proof.
  split; [discriminate|].
  apply (proj1 (selection_rejects_before_files twoBenchmarks "/work"
                  (contains "BenchmarkMe") samplePkg
                  [mkFnLoc "x_test.go" "BenchmarkMe";
                   mkFnLoc "x_test.go" "BenchmarkMeToo"]
                  eq_refl ltac:(discriminate) ltac:(discriminate)
                  eq_refl eq_refl eq_refl)).
  discriminate.
Defined.

Lemma shape_error_before_rewrite_witness :
  NumFields twoParams <> 1%nat
  /\ snd (main wrongShape) = Exit 1
  /\ Forall (fun e => modifies_file e = false) (fst (main wrongShape))
  /\ rewriteBenchFuncInPlace wrongShape "/tmp/go-bb-1/bborig"
       (mkFnLoc "x_test.go" "BenchmarkMe")
     = ([Stderr (mkMessage
                   "Function %s is expected to have exactly one parameter, but got %d"
                   ["BenchmarkMe"; "2"])],
        Exit 1).
Proof.
  split; [discriminate|].
  apply (shape_error_before_rewrite wrongShape
           (mkSelected "/work" "/work/benchmark.binary" samplePkg
                       (mkFnLoc "x_test.go" "BenchmarkMe"))
           ("/tmp/go-bb-1", "/tmp/go-bb-1/bborig")
           (mkFile "example" [DFunc (benchDecl None twoParams)])
           (benchDecl None twoParams)
           eq_refl eq_refl eq_refl eq_refl).
  discriminate.
Defined.

(** Directories and files without the suffix are passed over. *)
Lemma renameOne_skips (env : Env) (p : string) (x : DirEntry) :
  IsDir x = true \/ Strings.HasSuffix (EntryName x) "_test.go" = false ->
  renameOne env p x = ret None.
Proof.
  unfold renameOne. intros [-> | ->]; [reflexivity|].
  now rewrite orb_true_r.
Qed.

(** C9 fails on the file [a_test.go_test.go]: the first [_test.go] of the
    name is replaced, not the last, so the file is renamed to
    [a_bborig.go_test.go], which still ends in [_test.go].  The directory and
    the file without the suffix are passed over. *)
Theorem rename_keeps_test_suffix :
  renameTestFiles doubleSuffix "bborig"
    = ([ERename "bborig/a_test.go_test.go" "bborig/a_bborig.go_test.go"],
       Ok None)
  /\ Strings.HasSuffix "a_test.go_test.go" "_test.go" = true
  /\ Strings.HasSuffix "a_bborig.go_test.go" "_test.go" = true.
Proof. repeat split. Qed.

(** * Further properties of the code *)

(** ** The depth counter *)

Section Depth.

Variable id : Ident.

Abbreviation keeps_depth f x :=
  (forall idx st, depth (snd (f idx x st)) = depth st).

Lemma post_depth (c : Cursor) (st : State) :
  depth (snd (post c st)) = depth st - 1.
Proof. unfold post. now destruct (deleteMe st && _)%bool. Qed.

Lemma visit_leaf_depth (n : Node) (st : State) :
  depth (visit_leaf (pre id) post n st) = depth st.
Proof.
  unfold visit_leaf. destruct n as [|e|s].
  - rewrite pre_nil, post_depth. cbn. lia.
  - rewrite pre_expr. destruct (is_harness_call id e); [reflexivity|].
    rewrite post_depth. cbn. lia.
  - rewrite pre_stmt. destruct (is_hoistable id s);
      rewrite post_depth; cbn; lia.
Qed.

Lemma single_depth (A : Type) f (x : A) (st : State) :
  keeps_depth f x -> depth (snd (single f x st)) = depth st.
Proof.
  intros H. unfold single. specialize (H (-1) st).
  now destruct (f (-1) x st).
Qed.

Lemma optional_depth (A : Type) f (o : option A) (st : State) :
  @option_all A (fun x => keeps_depth f x) o ->
  depth (snd (optional (pre id) post f o st)) = depth st.
Proof.
  intros [x H|]; cbn [optional].
  - pose proof (single_depth A f x st H) as D.
    now destruct (single f x st).
  - apply visit_leaf_depth.
Qed.

Lemma applyList_depth (A : Type) f (l : list A) :
  @list_all A (fun x => keeps_depth f x) l ->
  forall idx st, depth (snd (applyList f idx l st)) = depth st.
Proof.
  induction 1 as [|x H r _ IH]; intros idx st; cbn [applyList];
    [reflexivity|].
  specialize (H idx st). destruct (f idx x st) as [[x'|] st1];
    cbn [snd] in H.
  - specialize (IH (idx + 1) st1).
    destruct (applyList f (idx + 1) r st1). cbn [snd] in *. lia.
  - rewrite IH. exact H.
Qed.

Lemma block_depth f (body : list Stmt) (st : State) :
  @list_all Stmt (fun x => keeps_depth f x) body ->
  depth (snd (block (pre id) post f body st)) = depth st.
Proof.
  intros H. unfold block. rewrite pre_stmt. cbn [is_hoistable].
  pose proof (applyList_depth Stmt f body H 0 (incDepth st)) as D.
  destruct (applyList f 0 body (incDepth st)) as [b st1].
  pose proof (post_depth (mkCursor (NStmt (BlockStmt b)) (-1)) st1) as P.
  destruct (post _ st1). cbn [snd depth incDepth] in *. lia.
Qed.

Ltac name_walks :=
  unfold ident_leaf;
  repeat match goal with
         | |- context [single ?g ?x ?st] =>
             let D := fresh "D" in
             pose proof (single_depth _ g x st ltac:(auto)) as D;
             destruct (single g x st); cbn [snd] in D
         | |- context [optional (pre id) post ?g ?x ?st] =>
             let D := fresh "D" in
             pose proof (optional_depth _ g x st ltac:(auto)) as D;
             destruct (optional (pre id) post g x st); cbn [snd] in D
         | |- context [applyList ?g 0 ?x ?st] =>
             let D := fresh "D" in
             pose proof (applyList_depth _ g x ltac:(auto) 0 st) as D;
             destruct (applyList g 0 x st); cbn [snd] in D
         | |- context [block (pre id) post ?g ?x ?st] =>
             let D := fresh "D" in
             pose proof (block_depth g x st ltac:(auto)) as D;
             destruct (block (pre id) post g x st); cbn [snd] in D
         end.

Ltac close_depth :=
  cbv zeta;
  match goal with
  | |- context [post ?c ?st] =>
      let P := fresh "P" in
      pose proof (post_depth c st) as P;
      destruct (post c st) as [[|] ?]; cbn [snd] in *;
      rewrite ?visit_leaf_depth in *; cbn [depth incDepth] in *; lia
  end.

Lemma apply_expr_depth (e : Expr) :
  keeps_depth (apply_expr (pre id) post) e.
Proof.
  induction e; intros idx st; cbn [apply_expr]; rewrite pre_expr;
    match goal with
    | |- context [is_harness_call id ?e] =>
        destruct (is_harness_call id e); [reflexivity|]
    end;
    name_walks; close_depth.
Qed.

Lemma apply_stmt_depth (s : Stmt) :
  keeps_depth (apply_stmt (pre id) post) s.
Proof.
  pose proof apply_expr_depth as E.
  pose proof (fun l => list_all_of_forall _ _ l E) as EL.
  pose proof (fun o => option_all_of_forall _ _ o E) as EO.
  induction s; intros idx st; cbn [apply_stmt]; rewrite pre_stmt;
    match goal with
    | |- context [is_hoistable id ?s] => destruct (is_hoistable id s)
    end;
    try match goal with l : option Ident |- _ => destruct l end;
    name_walks; close_depth.
Qed.

End Depth.

(** X1.  The depth counter is back at zero when the traversal of any tree
    ends: every call of the first callback that counts up is matched by a
    call of the second, and a pruned call counts neither. *)
Theorem depth_restored (id : Ident) (root : Stmt) :
  depth (finalState id root) = 0.
Proof.
  unfold finalState, Apply.
  rewrite single_depth; [reflexivity|]. apply apply_stmt_depth.
Qed.

(** ** What a traversal deletes *)

Section Deletions.

Variable id : Ident.

(** A property of the state and the record that the two callbacks keep is
    kept by the whole traversal. *)
Lemma traced_invariant (Inv : Traced -> Prop) (root : Stmt) :
  (forall c s, Inv s -> Inv (snd (traced_pre id c s))) ->
  (forall c s, Inv s -> Inv (snd (traced_post c s))) ->
  Inv (initState, []) ->
  Inv (snd (Apply (traced_pre id) traced_post root (initState, []))).
Proof.
  intros Hpre Hpost H0.
  assert (A : rel (fun s t : Traced => s = t /\ Inv s)
                (Apply (traced_pre id) traced_post root (initState, []))
                (Apply (traced_pre id) traced_post root (initState, []))).
  { apply Apply_rel.
    - intros c s ? [<- H]. repeat split. now apply Hpre.
    - intros c s ? [<- H]. repeat split. now apply Hpost.
    - now split. }
  apply A.
Qed.

Lemma deletions_app (l1 l2 : list Event) :
  deletions (l1 ++ l2) = deletions l1 ++ deletions l2.
Proof. apply flat_map_app. Qed.

Lemma raises_app (l1 l2 : list Event) :
  raises (l1 ++ l2) = raises l1 ++ raises l2.
Proof. apply flat_map_app. Qed.

(** The first callback prunes at harness calls and nowhere else. *)
Lemma pre_prune (c : Cursor) (st : State) :
  fst (pre id c st) = Prune ->
  exists e, Node_ c = NExpr e /\ is_harness_call id e = true.
Proof.
  destruct c as [[|e|s] idx]; cbn [Node_].
  - discriminate.
  - rewrite pre_expr. destruct (is_harness_call id e) eqn:H;
      [|discriminate]. intros _. now exists e.
  - rewrite pre_stmt. cbn [fst]. now destruct (is_hoistable id s).
Qed.

End Deletions.

(** X2.  The second callback deletes at cursors in a slice only, so
    [c.Delete()] never panics for a node outside a slice. *)
Theorem deletions_in_slices (id : Ident) (root : Stmt) :
  Forall (fun c => 0 <= Index c) (deletions (trace id root)).
Proof.
  unfold trace.
  apply (traced_invariant id
           (fun s => Forall (fun c => 0 <= Index c) (deletions (snd s)))).
  - intros c s H. unfold traced_pre. destruct (pre id c (fst s)).
    cbn [snd]. rewrite deletions_app. apply Forall_app. split; [exact H|].
    constructor.
  - intros c s H. unfold traced_post, post.
    destruct (deleteMe (fst s)) eqn:D; cbn [andb].
    + destruct (0 <=? Index c) eqn:I; cbn [snd];
        rewrite deletions_app; apply Forall_app; (split; [exact H|]);
        cbn; repeat constructor. now apply Z.leb_le.
    + cbn [snd]. rewrite deletions_app. apply Forall_app.
      split; [exact H|]. constructor.
  - constructor.
Qed.

(** X3.  The flag is raised at harness calls only, and a traversal deletes
    no more nodes than it has met harness calls: each deletion uses up a
    flag that a harness call raised. *)
Theorem deletions_bounded_by_harness_calls (id : Ident) (root : Stmt) :
  Forall (fun n => exists e, n = NExpr e /\ is_harness_call id e = true)
         (raises (trace id root))
  /\ (List.length (deletions (trace id root))
      <= List.length (raises (trace id root)))%nat.
Proof.
  unfold trace. split.
  - apply (traced_invariant id
             (fun s => Forall (fun n => exists e, n = NExpr e
                                 /\ is_harness_call id e = true)
                              (raises (snd s)))).
    + intros c s H. unfold traced_pre.
      pose proof (pre_prune id c (fst s)) as P.
      destruct (pre id c (fst s)) as [a st]. cbn [fst snd] in *.
      rewrite raises_app. apply Forall_app. split; [exact H|].
      destruct a; cbn; constructor; [|constructor].
      exact (P eq_refl).
    + intros c s H. unfold traced_post. destruct (post c (fst s)).
      cbn [snd]. rewrite raises_app. apply Forall_app. split; [exact H|].
      constructor.
    + constructor.
  - assert (G : (List.length (deletions (snd (snd (Apply (traced_pre id)
                     traced_post root (initState, [])))))
                 + (if deleteMe (fst (snd (Apply (traced_pre id)
                     traced_post root (initState, [])))) then 1 else 0)
                 <= List.length (raises (snd (snd (Apply (traced_pre id)
                     traced_post root (initState, []))))))%nat).
    { apply (traced_invariant id
               (fun s => (List.length (deletions (snd s))
                          + (if deleteMe (fst s) then 1 else 0)
                          <= List.length (raises (snd s)))%nat)).
      - intros c s H. unfold traced_pre.
        pose proof (pre_flag id c (fst s)) as F.
        destruct (pre id c (fst s)) as [a st]. cbn [fst snd] in *.
        rewrite deletions_app, raises_app, !length_app.
        destruct a; cbn [is_prune] in F; cbn;
          rewrite ?orb_false_r, ?orb_true_r in F; rewrite F;
          destruct (deleteMe (fst s)); lia.
      - intros c s H. unfold traced_post, post.
        destruct (deleteMe (fst s)) eqn:D; cbn [andb];
          [destruct (0 <=? Index c)|];
          cbn [fst snd deleteMe];
          rewrite deletions_app, raises_app, !length_app; cbn;
          rewrite ?D; lia.
      - cbn. lia. }
    lia.
Qed.

(** ** The statements of a body *)

Lemma applyList_length (S A : Type) (f : Z -> A -> S -> option A * S)
    (l : list A) (idx : Z) (st : S) :
  (List.length (fst (applyList f idx l st)) <= List.length l)%nat.
Proof.
  revert idx st; induction l as [|x r IH]; intros idx st;
    cbn [applyList]; [reflexivity|].
  destruct (f idx x st) as [[x'|] st1].
  - specialize (IH (idx + 1) st1).
    destruct (applyList f (idx + 1) r st1). cbn [fst List.length] in *. lia.
  - specialize (IH idx st1). cbn [List.length]. lia.
Qed.

(** X4.  The body comes back as a block, so the type assertion on the
    result of the transformer cannot fail, and it has no more statements
    than before: each statement is kept, rewritten, replaced by one block
    or deleted, and none is added. *)
Theorem body_stays_block (id : Ident) (body : list Stmt) :
  exists body',
    removeReferencesToIdentifier id (BlockStmt body) = BlockStmt body'
    /\ (List.length body' <= List.length body)%nat.
Proof.
  unfold removeReferencesToIdentifier, Apply, single.
  cbn [apply_stmt]. rewrite pre_stmt. cbn [is_hoistable].
  pose proof (applyList_length _ _ (apply_stmt (pre id) post) body 0
                (incDepth initState)) as L.
  destruct (applyList (apply_stmt (pre id) post) 0 body (incDepth initState))
    as [l' st].
  exists l'. unfold post. cbn [Index]. rewrite andb_false_r. now split.
Qed.

(** X5.  A body in which neither rule is taken is returned as it is, also
    when it holds occurrences of the harness object: an occurrence that is
    neither the base of a call nor the bound of a loop stays. *)
Theorem untriggered_body_unchanged (id : Ident) (body : list Stmt) :
  existsb (stmt_triggers id) body = false ->
  removeReferencesToIdentifier id (BlockStmt body) = BlockStmt body.
Proof.
  intros M. unfold removeReferencesToIdentifier, Apply.
  rewrite single_fixes; auto.
  apply apply_stmt_clean. cbn [stmt_triggers is_hoistable orb]. exact M.
Qed.

Lemma untriggered_body_unchanged_witness :
  existsb (stmt_triggers h) [readsN; accumulate] = false
  /\ removeReferencesToIdentifier h (BlockStmt [readsN; accumulate])
     = BlockStmt [readsN; accumulate]
  /\ stmt_mentions h (BlockStmt [readsN; accumulate]) = true.
Proof.
  split; [reflexivity|]. split; [|reflexivity].
  apply (untriggered_body_unchanged h [readsN; accumulate]). reflexivity.
Defined.

(** X6.  A harness call that is a statement of its own is taken out of its
    statement list, whatever its arguments, and the statements around it in
    which no rule is taken stay as they are and in place. *)
Theorem harness_call_statement_removed (id : Ident)
    (before after : list Stmt) (call : Expr) :
  is_harness_call id call = true ->
  existsb (stmt_triggers id) before = false ->
  existsb (stmt_triggers id) after = false ->
  removeReferencesToIdentifier id
    (BlockStmt (before ++ ExprStmt call :: after))
  = BlockStmt (before ++ after).
Proof.
  intros Hc Hb Ha.
  unfold removeReferencesToIdentifier, Apply, single.
  cbn [apply_stmt]. rewrite pre_stmt. cbn [is_hoistable].
  rewrite applyList_app.
  rewrite applyList_stmt_untriggered by (assumption || reflexivity).
  cbn [applyList apply_stmt]. rewrite pre_stmt. cbn [is_hoistable].
  unfold single. rewrite apply_expr_harness_call by assumption.
  unfold post at 1. cbn [deleteMe Index andb].
  replace (0 <=? 0 + Z.of_nat (List.length before)) with true
    by (symmetry; apply Z.leb_le; lia).
  rewrite applyList_stmt_untriggered by (assumption || reflexivity).
  unfold post. cbn [deleteMe Index andb fst]. reflexivity.
Qed.

Lemma harness_call_statement_removed_witness :
  is_harness_call h (CallExpr (sel (IdentExpr h) "Log") [ref "x"]) = true
  /\ removeReferencesToIdentifier h
       (BlockStmt ([accumulate]
                   ++ ExprStmt (CallExpr (sel (IdentExpr h) "Log") [ref "x"])
                   :: [readsN]))
     = BlockStmt ([accumulate] ++ [readsN]).
Proof.
  split; [reflexivity|].
  apply (harness_call_statement_removed h [accumulate] [readsN]);
    reflexivity.
Defined.

(** X7.  On a body of the class [supported] the transformer is idempotent:
    what it returns has no occurrence left, and a second run returns it
    unchanged. *)
Theorem transformer_idempotent (id : Ident) (body : list Stmt) :
  forallb (supported id true) body = true ->
  removeReferencesToIdentifier id
    (removeReferencesToIdentifier id (BlockStmt body))
  = removeReferencesToIdentifier id (BlockStmt body).
Proof.
  intros S.
  assert (B : supported id false (BlockStmt body) = true).
  { cbn [supported]. rewrite S. apply orb_true_r. }
  destruct (apply_stmt_supported id (BlockStmt body) false (-1) initState B
              ltac:(discriminate) eq_refl) as [_ M].
  unfold removeReferencesToIdentifier at 2 3. unfold Apply, single.
  destruct (apply_stmt (pre id) post (-1) (BlockStmt body) initState)
    as [[s'|] st']; cbn [fst] in *; [|lia].
  unfold removeReferencesToIdentifier, Apply.
  rewrite single_fixes; auto.
  apply apply_stmt_clean. now apply stmt_triggers_mentions.
Qed.

Lemma transformer_idempotent_witness :
  forallb (supported h true) (timers ++ timedLoop) = true
  /\ removeReferencesToIdentifier h
       (removeReferencesToIdentifier h (BlockStmt (timers ++ timedLoop)))
     = removeReferencesToIdentifier h (BlockStmt (timers ++ timedLoop)).
Proof.
  split; [reflexivity|].
  apply (transformer_idempotent h (timers ++ timedLoop)). reflexivity.
Defined.

(** ** Rewriting the declaration in its file *)

Section RewriteFile.

Variable env : Env.

Lemma findDecl_Some (decls : list Decl) (n : string) (d : FuncDecl) :
  findDecl decls n = Some d ->
  In (DFunc d) decls /\ Name (FuncName d) = n.
Proof.
  induction decls as [|[fd|t] r IH]; cbn [findDecl]; [discriminate| |].
  - destruct (String.eqb (Name (FuncName fd)) n) eqn:E.
    + intros [= <-]. apply String.eqb_eq in E. split; [now left|exact E].
    + intros H. destruct (IH H). split; [now right|assumption].
  - intros H. destruct (IH H). split; [now right|assumption].
Qed.

Lemma findDecl_None (decls : list Decl) (n : string) :
  findDecl decls n = None <->
  forall fd, In (DFunc fd) decls -> Name (FuncName fd) <> n.
Proof.
  induction decls as [|[fd|t] r IH]; cbn [findDecl].
  - split; [intros _ fd []|reflexivity].
  - destruct (String.eqb (Name (FuncName fd)) n) eqn:E.
    + apply String.eqb_eq in E. split; [discriminate|].
      intros H. exfalso. apply (H fd); [now left|exact E].
    + apply String.eqb_neq in E. rewrite IH. split.
      * intros H fd' [[= <-]|I]; [exact E|now apply H].
      * intros H fd' I. apply H. now right.
  - rewrite IH. split.
    + intros H fd' [[=]|I]. now apply H.
    + intros H fd' I. apply H. now right.
Qed.

Lemma editDecl_FuncName (d d' : FuncDecl) :
  editDecl d = Ok d' -> FuncName d' = FuncName d.
Proof.
  unfold editDecl. destruct (Params d) as [|f r]; [discriminate|].
  destruct (Names f) as [|n ns]; [discriminate|].
  destruct (Body d) as [l|].
  - destruct (removeReferencesToIdentifier n (BlockStmt l));
      try discriminate. now intros [= <-].
  - now intros [= <-].
Qed.

End RewriteFile.

(** X8.  A declaration whose one parameter has no name passes the check of
    the parameter count, and [rewriteBenchFuncInPlace] then panics on
    [Names[0]], before the file is opened: nothing is written. *)
Theorem unnamed_parameter_panics (env : Env) (pkgDir : string) (loc : fnLoc)
    (fileAst : File) (d : FuncDecl) (ty : Expr) :
  parser_ParseFile env (path_Join env pkgDir (file loc)) = inl fileAst ->
  findDecl (Decls fileAst) (name loc) = Some d ->
  Params d = [mkField [] ty] ->
  rewriteBenchFuncInPlace env pkgDir loc
  = ([], Panic "index out of range [0] with length 0").
Proof.
  intros Hp Hf Hd. unfold rewriteBenchFuncInPlace.
  rewrite Hp, Hf, Hd. cbn [NumFields fold_left Names List.length Nat.eqb].
  unfold editDecl. rewrite Hd. reflexivity.
Qed.

Lemma unnamed_parameter_panics_witness :
  rewriteBenchFuncInPlace
    (world "BenchmarkMe" [DFunc (benchDecl None anonymousParam)] [])
    "pkg" (mkFnLoc "x_test.go" "BenchmarkMe")
  = ([], Panic "index out of range [0] with length 0").
Proof.
  apply (unnamed_parameter_panics
           (world "BenchmarkMe" [DFunc (benchDecl None anonymousParam)] [])
           "pkg" (mkFnLoc "x_test.go" "BenchmarkMe")
           (mkFile "example" [DFunc (benchDecl None anonymousParam)])
           (benchDecl None anonymousParam) testingB);
    reflexivity.
Defined.

(** X9.  Once the file parses, [rewriteBenchFuncInPlace] panics with its
    own message exactly when the file has no function declaration of the
    name it was asked for. *)
Theorem missing_declaration_panics (env : Env) (pkgDir : string)
    (loc : fnLoc) (fileAst : File) :
  parser_ParseFile env (path_Join env pkgDir (file loc)) = inl fileAst ->
  (snd (rewriteBenchFuncInPlace env pkgDir loc)
   = Panic "could not find benchmark declaration after the files have been copied"
   <-> forall fd, In (DFunc fd) (Decls fileAst) ->
                  Name (FuncName fd) <> name loc).
Proof.
  intros Hp. rewrite <- findDecl_None. unfold rewriteBenchFuncInPlace.
  rewrite Hp. destruct (findDecl (Decls fileAst) (name loc)) as [d|].
  - split; [|discriminate]. intros H. exfalso. revert H.
    destruct (Nat.eqb (NumFields (Params d)) 1); [|discriminate].
    rewrite (bind_Ok _ _ (ret tt) _ tt eq_refl).
    unfold editDecl. destruct (Params d) as [|f r]; [discriminate|].
    destruct (Names f) as [|n ns]; [discriminate|].
    destruct (Body d) as [l|].
    + destruct (root_block n l) as [l' ->].
      destruct (os_OpenFile env _); [discriminate|].
      destruct (format_Node env _ _); discriminate.
    + destruct (os_OpenFile env _); [discriminate|].
      destruct (format_Node env _ _); discriminate.
  - split; reflexivity.
Qed.

Lemma missing_declaration_panics_witness :
  snd (rewriteBenchFuncInPlace
         (world "BenchmarkMe" [funcNamed "BenchmarkOther"] [])
         "pkg" (mkFnLoc "x_test.go" "BenchmarkMe"))
  = Panic "could not find benchmark declaration after the files have been copied".
Proof.
  apply (missing_declaration_panics
           (world "BenchmarkMe" [funcNamed "BenchmarkOther"] [])
           "pkg" (mkFnLoc "x_test.go" "BenchmarkMe")
           (mkFile "example" [funcNamed "BenchmarkOther"]) eq_refl).
  intros fd [[= <-]|[]]. discriminate.
Defined.

(** X10.  [rewriteBenchFuncInPlace] opens and writes the one file it was
    given and no other: each of its effects is a message on standard error,
    the truncation of that file, or the formatted source written to it. *)
Theorem rewrite_touches_its_file_only (env : Env) (pkgDir : string)
    (loc : fnLoc) :
  Forall (fun e =>
            (exists m, e = Stderr m)
            \/ e = ETruncate (path_Join env pkgDir (file loc))
            \/ exists f, e = EFormat (path_Join env pkgDir (file loc)) f)
         (fst (rewriteBenchFuncInPlace env pkgDir loc)).
Proof.
  unfold rewriteBenchFuncInPlace.
  destruct (parser_ParseFile env _) as [fileAst|err]; [|constructor].
  destruct (findDecl _ _) as [d|]; [|constructor].
  destruct (Nat.eqb (NumFields (Params d)) 1).
  2:{ cbn. constructor; [left; eexists; reflexivity|constructor]. }
  destruct (editDecl d) as [d'|c|m]; cbn; try constructor.
  destruct (os_OpenFile env _).
  { cbn. constructor; [left; eexists; reflexivity|constructor]. }
  destruct (format_Node env _ _); cbn.
  - constructor; [right; left; reflexivity|].
    constructor; [left; eexists; reflexivity|constructor].
  - constructor; [right; left; reflexivity|].
    constructor; [right; right; eexists; reflexivity|constructor].
Qed.

(** X11.  When the declaration has one named parameter and the file can be
    opened and formatted, the file is truncated and written with the edited
    declaration in the place of the first function of the name: looking the
    name up in the written file gives the edited declaration, which has no
    parameter, and the file has as many declarations as before. *)
Theorem rewritten_file_holds_edited_declaration (env : Env)
    (pkgDir : string) (loc : fnLoc) (fileAst : File) (d : FuncDecl)
    (n : Ident) (ty : Expr) :
  parser_ParseFile env (path_Join env pkgDir (file loc)) = inl fileAst ->
  findDecl (Decls fileAst) (name loc) = Some d ->
  Params d = [mkField [n] ty] ->
  os_OpenFile env (path_Join env pkgDir (file loc)) = None ->
  (forall f, format_Node env (path_Join env pkgDir (file loc)) f = None) ->
  exists d' decls',
    rewriteBenchFuncInPlace env pkgDir loc
    = ([ETruncate (path_Join env pkgDir (file loc));
        EFormat (path_Join env pkgDir (file loc))
                (mkFile (PkgName fileAst) decls')],
       Ok None)
    /\ editDecl d = Ok d'
    /\ findDecl decls' (name loc) = Some d'
    /\ Params d' = []
    /\ List.length decls' = List.length (Decls fileAst).
Proof.
  intros Hp Hf Hd Ho Hfmt.
  assert (E : exists d', editDecl d = Ok d' /\ Params d' = []).
  { unfold editDecl. rewrite Hd. cbn [Names].
    destruct (Body d) as [l|].
    - destruct (root_block n l) as [l' ->]. eexists. now split.
    - eexists. now split. }
  destruct E as (d' & E & P).
  exists d', (updateDecl (Decls fileAst) (name loc) d').
  pose proof (editDecl_FuncName d d' E) as N.
  destruct (findDecl_Some _ _ _ Hf) as [_ Hn].
  repeat split; try assumption.
  - unfold rewriteBenchFuncInPlace. rewrite Hp, Hf, Hd.
    cbn [NumFields fold_left Names List.length Nat.eqb].
    unfold bind, ret, emit. rewrite E, Ho, Hfmt. reflexivity.
  - clear Hp. revert Hf.
    induction (Decls fileAst) as [|[fd|t] r IH];
      cbn [findDecl updateDecl]; [discriminate| |].
    + destruct (String.eqb (Name (FuncName fd)) (name loc)) eqn:Q;
        cbn [findDecl].
      * intros _. rewrite N, Hn, String.eqb_refl. reflexivity.
      * rewrite Q. exact IH.
    + exact IH.
  - clear. induction (Decls fileAst) as [|[fd|t] r IH];
      cbn [updateDecl List.length]; [reflexivity| |].
    + destruct (String.eqb _ _); cbn [List.length]; now rewrite ?IH.
    + now rewrite IH.
Qed.

Lemma rewritten_file_holds_edited_declaration_witness :
  exists d' decls',
    rewriteBenchFuncInPlace
      (world "BenchmarkMe"
             [funcNamed "TestMe"; DFunc (benchDecl None namedParam)] [])
      "pkg" (mkFnLoc "x_test.go" "BenchmarkMe")
    = ([ETruncate "pkg/x_test.go";
        EFormat "pkg/x_test.go" (mkFile "example" decls')],
       Ok None)
    /\ editDecl (benchDecl None namedParam) = Ok d'
    /\ findDecl decls' "BenchmarkMe" = Some d'
    /\ Params d' = []
    /\ List.length decls' = 2%nat.
Proof.
  apply (rewritten_file_holds_edited_declaration
           (world "BenchmarkMe"
                  [funcNamed "TestMe"; DFunc (benchDecl None namedParam)] [])
           "pkg" (mkFnLoc "x_test.go" "BenchmarkMe")
           (mkFile "example"
                   [funcNamed "TestMe"; DFunc (benchDecl None namedParam)])
           (benchDecl None namedParam) h testingB);
    reflexivity.
Defined.

(** ** Selection never fails *)

(** X12.  [findBenchmarkFuncs] always returns a list: a test file that does
    not parse costs one message on standard output and is passed over, and
    the function has no other effect. *)
Theorem findBenchmarkFuncs_skips_unparsed (env : Env) (pkg_ : Package)
    (re : Regexp) :
  fst (findBenchmarkFuncs env pkg_ re)
    = ignoredMessages env pkg_ (TestGoFiles pkg_ ++ XTestGoFiles pkg_)
  /\ exists found, snd (findBenchmarkFuncs env pkg_ re) = Ok found.
Proof.
  unfold findBenchmarkFuncs.
  induction (TestGoFiles pkg_ ++ XTestGoFiles pkg_) as [|x r [IHe [found IHf]]];
    cbn [findInFiles ignoredMessages flat_map].
  - split; [reflexivity|now exists []].
  - fold (ignoredMessages env pkg_ r).
    destruct (parser_ParseFile env (path_Join env (Dir pkg_) x)) as [f|err].
    + destruct (findInFiles env pkg_ re r) as [t o]. cbn [fst snd] in *.
      subst o. cbn. rewrite app_nil_r. split; [exact IHe|eexists; reflexivity].
    + destruct (findInFiles env pkg_ re r) as [t o]. cbn [fst snd] in *.
      subst o. cbn. split; [now rewrite IHe|eexists; reflexivity].
Qed.

(** ** Renaming and copying *)

Section StringFacts.

Lemma substring_all (s : string) : substring 0 (String.length s) s = s.
Proof. induction s as [|c s IH]; cbn; [reflexivity|now rewrite IH]. Qed.

Lemma substring_skip (a t : string) (n m : nat) :
  substring (String.length a + n) m (a ++ t)%string = substring n m t.
Proof. induction a as [|c a IH]; cbn; [reflexivity|exact IH]. Qed.

Lemma length_app_string (a b : string) :
  String.length (a ++ b)%string = (String.length a + String.length b)%nat.
Proof. induction a as [|c a IH]; cbn; [reflexivity|now rewrite IH]. Qed.

Lemma prefix_app (a b : string) : String.prefix a (a ++ b)%string = true.
Proof.
  induction a as [|c a IH]; cbn; [now destruct b|].
  destruct (ascii_dec c c); [exact IH|contradiction].
Qed.

Lemma HasSuffix_app (a b : string) :
  Strings.HasSuffix (a ++ b)%string b = true.
Proof.
  unfold Strings.HasSuffix. rewrite length_app_string.
  replace (String.length a + String.length b - String.length b)%nat
    with (String.length a + 0)%nat by lia.
  rewrite substring_skip, substring_all, String.eqb_refl, andb_true_r.
  apply Nat.leb_le. lia.
Qed.

Lemma Replace1_unfold (s old new : string) :
  Strings.Replace1 s old new =
  if String.prefix old s
  then (new ++ substring (String.length old)
                         (String.length s - String.length old) s)%string
  else match s with
       | EmptyString => EmptyString
       | String c r => String c (Strings.Replace1 r old new)
       end.
Proof. destruct s; reflexivity. Qed.

(** The leftmost occurrence is the one replaced. *)
Lemma Replace1_leftmost (a old new b : string) :
  (forall k, (k < String.length a)%nat ->
             String.prefix old (dropStr k (a ++ old ++ b)%string) = false) ->
  Strings.Replace1 (a ++ old ++ b)%string old new = (a ++ new ++ b)%string.
Proof.
  induction a as [|c a IH]; intros H.
  - cbn [append]. rewrite Replace1_unfold, prefix_app.
    rewrite length_app_string.
    replace (String.length old + String.length b - String.length old)%nat
      with (String.length b) by lia.
    pose proof (substring_skip old b 0 (String.length b)) as S.
    rewrite Nat.add_0_r in S. now rewrite S, substring_all.
  - cbn [append]. rewrite Replace1_unfold.
    pose proof (H 0%nat ltac:(cbn; lia)) as H0.
    unfold dropStr in H0. rewrite Nat.sub_0_r, substring_all in H0.
    cbn [append] in H0. rewrite H0. f_equal. apply IH.
    intros k Hk. specialize (H (S k) ltac:(cbn; lia)). exact H.
Qed.

End StringFacts.

(** X13.  A file whose name ends in [_test.go] and holds [_test.go] nowhere
    before is renamed to the same stem with [_bborig.go], a name that no
    longer ends in [_test.go]. *)
Theorem single_suffix_renamed (env : Env) (p stem : string) :
  (forall k, (k < String.length stem)%nat ->
             String.prefix "_test.go"
               (dropStr k (stem ++ "_test.go")%string) = false) ->
  os_Rename env (path_Join env p (stem ++ "_test.go")%string)
                (path_Join env p (stem ++ "_bborig.go")%string) = None ->
  renameOne env p (mkDirEntry (stem ++ "_test.go")%string false)
  = ([ERename (path_Join env p (stem ++ "_test.go")%string)
              (path_Join env p (stem ++ "_bborig.go")%string)],
     Ok None)
  /\ Strings.HasSuffix (stem ++ "_bborig.go")%string "_test.go" = false.
Proof.
  intros H R. split.
  - unfold renameOne. cbn [IsDir EntryName orb].
    rewrite HasSuffix_app. cbn [negb].
    pose proof (Replace1_leftmost stem "_test.go" "_bborig.go" "" H) as E.
    cbn [append] in E. rewrite E, R. reflexivity.
  - unfold Strings.HasSuffix. rewrite length_app_string.
    replace (String.length stem + String.length "_bborig.go"
             - String.length "_test.go")%nat
      with (String.length stem + 2)%nat by (cbn; lia).
    rewrite substring_skip. cbn. apply andb_false_r.
Qed.

Lemma single_suffix_renamed_witness :
  renameOne doubleSuffix "bborig" (mkDirEntry "x_test.go" false)
  = ([ERename "bborig/x_test.go" "bborig/x_bborig.go"], Ok None)
  /\ Strings.HasSuffix "x_bborig.go" "_test.go" = false.
Proof.
  apply (single_suffix_renamed doubleSuffix "bborig" "x").
  - intros [|k] Hk; [reflexivity|cbn in Hk; lia].
  - reflexivity.
Defined.

Section StepEffectsMore.

Variable env : Env.

Lemma sat_bind (A B : Type) (Q : Effect -> Prop) (m : IO A)
    (k : A -> IO B) :
  effects_sat Q m ->
  (forall a, snd m = Ok a -> effects_sat Q (k a)) ->
  effects_sat Q (bind m k).
Proof.
  unfold effects_sat, bind. destruct m as [t [a|c|msg]]; cbn [fst snd].
  - intros Hm Hk. specialize (Hk a eq_refl).
    destruct (k a) as [t' r]. cbn [fst] in *. apply Forall_app. now split.
  - auto.
  - auto.
Qed.

Lemma sat_ret (A : Type) (Q : Effect -> Prop) (a : A) :
  effects_sat Q (ret a).
Proof. constructor. Qed.

Lemma forEach_sat (A : Type) (Q : Effect -> Prop)
    (f : A -> IO (option error)) (l : list A) :
  (forall x, In x l -> effects_sat Q (f x)) -> effects_sat Q (forEach f l).
Proof.
  induction l as [|x r IH]; intros H; cbn [forEach].
  - apply sat_ret.
  - apply sat_bind; [apply H; now left|].
    intros [err|] _; [apply sat_ret|]. apply IH. intros y I. apply H.
    now right.
Qed.

End StepEffectsMore.

(** X14.  [renameTestFiles] renames entries of the directory listing that
    are not directories and whose name ends in [_test.go], within the
    directory, and has no other effect; directories and other files are
    never renamed. *)
Theorem rename_only_test_files (env : Env) (p : string) :
  Forall (fun e =>
            exists files x,
              os_ReadDir env p = inl files
              /\ In x files
              /\ IsDir x = false
              /\ Strings.HasSuffix (EntryName x) "_test.go" = true
              /\ e = ERename
                       (path_Join env p (EntryName x))
                       (path_Join env p
                          (Strings.Replace1 (EntryName x) "_test.go"
                                            "_bborig.go")))
         (fst (renameTestFiles env p)).
Proof.
  unfold renameTestFiles.
  destruct (os_ReadDir env p) as [files|err] eqn:R; [|constructor].
  apply forEach_sat. intros x I. unfold renameOne.
  destruct (IsDir x) eqn:D; [apply sat_ret|].
  destruct (Strings.HasSuffix (EntryName x) "_test.go") eqn:S;
    [|apply sat_ret].
  cbn [orb negb]. destruct (os_Rename env _ _); [apply sat_ret|].
  constructor; [|constructor]. now exists files, x.
Qed.


(** ** The run as a whole *)

Section Run.

Variable env : Env.

Lemma main_stops_with_selectFunc (t : list Effect) (c : Z) :
  selectFunc env = (t, Exit c) -> main env = (t, Exit c).
Proof. intros H. unfold main. now rewrite H. Qed.











Lemma selectFunc_Ok (sel : Selected) :
  snd (selectFunc env) = Ok sel ->
  exists re,
    os_Getwd env = inl (cwd sel)
    /\ pathFlag env <> ""
    /\ nameFlag env <> ""
    /\ regexp_Compile env (".*" ++ nameFlag env ++ ".*")%string = Some re
    /\ build_Import env (pathFlag env) (cwd sel) = inl (pkg sel)
    /\ snd (findBenchmarkFuncs env (pkg sel) re) = Ok [benchFuncLoc sel]
    /\ binaryPath sel = binaryPathOf env (cwd sel).
Proof.
  unfold selectFunc. destruct (os_Getwd env) as [cwd_|err]; [|discriminate].
  destruct (String.eqb (pathFlag env) "") eqn:Ep; [discriminate|].
  rewrite (bind_Ok _ _ (ret tt) _ tt eq_refl).
  destruct (String.eqb (nameFlag env) "") eqn:En; [discriminate|].
  rewrite (bind_Ok _ _ (ret tt) _ tt eq_refl).
  destruct (regexp_Compile env _) as [re|] eqn:Er; [|discriminate].
  destruct (build_Import env _ _) as [pkg_|err] eqn:Ei; [|discriminate].
  destruct (findBenchmarkFuncs env pkg_ re) as [t [found|c|m]] eqn:Ef;
    try discriminate.
  unfold bind at 1. destruct found as [|loc [|loc' more]]; try discriminate.
  cbn. intros [= <-]. exists re. cbn [cwd pkg benchFuncLoc binaryPath].
  apply String.eqb_neq in Ep, En.
  repeat split; try assumption.
  - now rewrite Ef.
  - unfold binaryPathOf. destruct (String.eqb (binaryPathFlag env) "");
      [reflexivity|]. cbn [negb]. now destruct (path_IsAbs env _).
Qed.

End Run.

(** X16.  Without a path flag or without a name flag [main] writes its
    message and the usage on standard error and ends by [os.Exit(1)],
    before it compiles the pattern or imports the package. *)
Theorem missing_flag_usage (env : Env) (cwd_ : string) :
  os_Getwd env = inl cwd_ ->
  pathFlag env = "" \/ nameFlag env = "" ->
  main env
  = ([Stderr (mkMessage (if String.eqb (pathFlag env) ""
                         then "Missing -p flag." else "Missing -n flag.")
                        []);
      Usage],
     Exit 1).
Proof.
  intros Hwd H. apply main_stops_with_selectFunc.
  unfold selectFunc. rewrite Hwd.
  destruct (String.eqb (pathFlag env) "") eqn:Ep; [reflexivity|].
  destruct H as [H|H].
  - rewrite H in Ep. discriminate.
  - rewrite H. reflexivity.
Qed.

Lemma missing_flag_usage_witness :
  main (world "" [] [])
  = ([Stderr (mkMessage "Missing -n flag." []); Usage], Exit 1).
Proof.
  apply (missing_flag_usage (world "" [] []) "/work" eq_refl).
  now right.
Defined.

(** X17.  When the selection succeeds, the working directory was found,
    both flags were given, the wrapped pattern compiled, the package was
    imported and exactly the selected function was found; the path of the
    binary is the flag when it is absolute, the flag under the working
    directory when it is relative, and [benchmark.binary] under the working
    directory when it is empty. *)
Theorem selection_success (env : Env) (sel : Selected) :
  snd (selectFunc env) = Ok sel ->
  exists re,
    os_Getwd env = inl (cwd sel)
    /\ pathFlag env <> ""
    /\ nameFlag env <> ""
    /\ regexp_Compile env (".*" ++ nameFlag env ++ ".*")%string = Some re
    /\ build_Import env (pathFlag env) (cwd sel) = inl (pkg sel)
    /\ snd (findBenchmarkFuncs env (pkg sel) re) = Ok [benchFuncLoc sel]
    /\ binaryPath sel = binaryPathOf env (cwd sel).
Proof. apply selectFunc_Ok. Qed.

Lemma selection_success_witness :
  exists re,
    os_Getwd wrongShape = inl "/work"
    /\ pathFlag wrongShape <> ""
    /\ nameFlag wrongShape <> ""
    /\ regexp_Compile wrongShape ".*BenchmarkMe.*" = Some re
    /\ build_Import wrongShape "./pkg" "/work" = inl samplePkg
    /\ snd (findBenchmarkFuncs wrongShape samplePkg re)
       = Ok [mkFnLoc "x_test.go" "BenchmarkMe"]
    /\ "/work/benchmark.binary" = binaryPathOf wrongShape "/work".
Proof.
  apply (selection_success wrongShape
           (mkSelected "/work" "/work/benchmark.binary" samplePkg
                       (mkFnLoc "x_test.go" "BenchmarkMe"))).
  reflexivity.
Defined.



